(** * Cats vs. Homework: a shallow embedding of the simulation engine

    The engine of [src/managers.py], [src/cats.py] and [src/contraptions.py]
    is embedded as state-passing commands over one explicit game state.
    Python objects live in a store ([heap]) indexed by object identity, so
    that the two-sided links between a [Tile] and the [Actor] standing on it
    ([Tile._actor] and [Actor._tile]) are really two separate fields, as in
    the source.  Exceptions are results of their own; the state reached when
    the exception is raised is kept, as Python keeps it. *)

From stdpp Require Import gmap list strings.
From Stdlib Require Import ZArith Lia.

Abbreviation Tile := (nat * nat)%type (only parsing).

(** ** Constants of managers.py *)

Definition LANE_WIDTH : nat := 8.
Definition STARTING_BATTERIES : Z := 8.
Definition WIN_ROUND : Z := 40.

(** ** The tile graph built by [Board.__init__]

    A tile is named by (lane, column).  [Board.__init__] creates column 0 of
    every lane first, with no exit, and links each later tile to the previous
    one as its exit; the last tile created (column [LANE_WIDTH - 1]) is the
    lane entrance stored in [Board._lanes].  [above] is the same column of the
    previous lane, [below] the same column of the next one. *)

Definition exit (t : Tile) : option Tile :=
  match t.2 with
  | O => None
  | S c => Some (t.1, c)
  end.

Definition entrance (t : Tile) : option Tile :=
  if decide (S t.2 < LANE_WIDTH) then Some (t.1, S t.2) else None.

Definition above (t : Tile) : option Tile :=
  match t.1 with
  | O => None
  | S r => Some (r, t.2)
  end.

Definition below (lanes : nat) (t : Tile) : option Tile :=
  if decide (S t.1 < lanes) then Some (S t.1, t.2) else None.

Definition get_lane_entrance (index : nat) : Tile := (index, LANE_WIDTH - 1).

Definition on_board (lanes : nat) (t : Tile) : Prop :=
  t.1 < lanes ∧ t.2 < LANE_WIDTH.

(** The tiles met by [t = t.entrance()] repeated until [None]. *)
Definition entrance_chain (t : Tile) : list Tile :=
  (λ c, (t.1, c)) <$> seq (S t.2) (LANE_WIDTH - S t.2).

(** ** Actors *)

Inductive CatClass := Tabby | Calico | Kitten.

Record Cat := mkCat {
  cat_class : CatClass;
  starting_attention : Z;
  attention : Z;
  needed_rest_time : Z;
  rest_time : Z
}.

Inductive Contraption :=
| LaserPointer
| SnackDispenser (uses : Z)
| BatteryCharger (ready : bool)
| BallThrower
| TripleLaserPointer
| ColorfulBallThrower
| SpaceHeater.

Inductive ContraptionClass :=
| KLaserPointer | KSnackDispenser | KBatteryCharger | KBallThrower
| KTripleLaserPointer | KColorfulBallThrower | KSpaceHeater.

(** The constructors of contraptions.py. *)
Definition construct (k : ContraptionClass) : Contraption :=
  match k with
  | KLaserPointer => LaserPointer
  | KSnackDispenser => SnackDispenser 5
  | KBatteryCharger => BatteryCharger false
  | KBallThrower => BallThrower
  | KTripleLaserPointer => TripleLaserPointer
  | KColorfulBallThrower => ColorfulBallThrower
  | KSpaceHeater => SpaceHeater
  end.

Definition cost (c : Contraption) : Z :=
  match c with
  | LaserPointer => 7
  | SnackDispenser _ => 4
  | BatteryCharger _ => 3
  | BallThrower => 3
  | TripleLaserPointer => 12
  | ColorfulBallThrower => 5
  | SpaceHeater => 4
  end.

Inductive ActorBody :=
| ACat (c : Cat)
| AContraption (c : Contraption)
| AColorfulBall.

(** An [Actor] object: what it is, and its [_tile] field. *)
Record Actor := mkActor {
  body : ActorBody;
  tile : option Tile
}.

(** ** The game state: the [GameManager] singleton, the board and the store *)

Record Game := mkGame {
  lane_count : nat;                        (* Board: number of lanes *)
  tile_actor : gmap (nat * nat) nat;       (* Tile._actor, by tile *)
  heap : gmap nat Actor;                   (* the Actor objects, by identity *)
  next_id : nat;                           (* identity of the next object *)
  batteries : Z;                           (* GameManager._batteries *)
  rounds : Z;                              (* GameManager._rounds *)
  contraptions : list nat;                 (* GameManager._contraptions *)
  cats : list nat;                         (* GameManager._cats *)
  game_ended : bool;                       (* GameManager._game_ended *)
  instance : bool;                         (* GameManager._instance is not None *)
  current_selector : option ContraptionClass; (* SelectionManager._current_selector *)
  stdout : list string                     (* what print() has written *)
}.

Definition with_tile_actor (f : gmap (nat * nat) nat → gmap (nat * nat) nat) (s : Game) : Game :=
  mkGame (lane_count s) (f (tile_actor s)) (heap s) (next_id s) (batteries s)
    (rounds s) (contraptions s) (cats s) (game_ended s) (instance s)
    (current_selector s) (stdout s).

Definition with_heap (f : gmap nat Actor → gmap nat Actor) (s : Game) : Game :=
  mkGame (lane_count s) (tile_actor s) (f (heap s)) (next_id s) (batteries s)
    (rounds s) (contraptions s) (cats s) (game_ended s) (instance s)
    (current_selector s) (stdout s).

Definition with_next_id (n : nat) (s : Game) : Game :=
  mkGame (lane_count s) (tile_actor s) (heap s) n (batteries s)
    (rounds s) (contraptions s) (cats s) (game_ended s) (instance s)
    (current_selector s) (stdout s).

Definition with_batteries (b : Z) (s : Game) : Game :=
  mkGame (lane_count s) (tile_actor s) (heap s) (next_id s) b
    (rounds s) (contraptions s) (cats s) (game_ended s) (instance s)
    (current_selector s) (stdout s).

Definition with_rounds (r : Z) (s : Game) : Game :=
  mkGame (lane_count s) (tile_actor s) (heap s) (next_id s) (batteries s)
    r (contraptions s) (cats s) (game_ended s) (instance s)
    (current_selector s) (stdout s).

Definition with_contraptions (l : list nat) (s : Game) : Game :=
  mkGame (lane_count s) (tile_actor s) (heap s) (next_id s) (batteries s)
    (rounds s) l (cats s) (game_ended s) (instance s)
    (current_selector s) (stdout s).

Definition with_cats (l : list nat) (s : Game) : Game :=
  mkGame (lane_count s) (tile_actor s) (heap s) (next_id s) (batteries s)
    (rounds s) (contraptions s) l (game_ended s) (instance s)
    (current_selector s) (stdout s).

Definition with_destroyed (s : Game) : Game :=
  mkGame (lane_count s) (tile_actor s) (heap s) (next_id s) (batteries s)
    (rounds s) (contraptions s) (cats s) true false
    (current_selector s) (stdout s).

Definition with_current_selector (k : option ContraptionClass) (s : Game) : Game :=
  mkGame (lane_count s) (tile_actor s) (heap s) (next_id s) (batteries s)
    (rounds s) (contraptions s) (cats s) (game_ended s) (instance s)
    k (stdout s).

Definition with_stdout (line : string) (s : Game) : Game :=
  mkGame (lane_count s) (tile_actor s) (heap s) (next_id s) (batteries s)
    (rounds s) (contraptions s) (cats s) (game_ended s) (instance s)
    (current_selector s) (stdout s ++ [line]).

(** ** Commands: state passing with exceptions *)

Inductive Exception := AssertionError | AttributeError | ValueError.

Inductive Res :=
| Ok (s : Game)
| Raise (e : Exception) (s : Game).

Abbreviation Cmd := (Game → Res) (only parsing).

Definition seq_cmd (f g : Game → Res) : Game → Res :=
  λ s, match f s with
       | Ok s' => g s'
       | Raise e s' => Raise e s'
       end.

Infix ">>" := seq_cmd (at level 61, left associativity).

Definition pure (f : Game → Game) : Game → Res := λ s, Ok (f s).

(** Python's [assert b]. *)
Definition py_assert (b : bool) : Game → Res :=
  λ s, if b then Ok s else Raise AssertionError s.

(** ** managers.py: GameManager, the part the engine uses *)

(** [GameManager.manager()]: asserts that the singleton exists. *)
Definition manager : Game → Res :=
  λ s, py_assert (instance s) s.

(** [GameManager.destroy()], without the window. *)
Definition destroy : Game → Res :=
  λ s, (py_assert (instance s) >> pure with_destroyed) s.

Definition lose_game : Game → Res :=
  pure (with_stdout "You lose!") >> destroy.

Definition win_game : Game → Res :=
  pure (with_stdout "You win!") >> destroy.

(** [SelectionManager.update_battery_text] and [update_round_text] only
    redraw a label, but they assert that the number shown is not negative. *)
Definition update_battery_text : Game → Res :=
  λ s, py_assert (bool_decide (0 ≤ batteries s)%Z) s.

Definition update_round_text : Game → Res :=
  λ s, py_assert (bool_decide (0 ≤ rounds s)%Z) s.

Definition spend_batteries (amount : Z) : Game → Res :=
  λ s, (py_assert (bool_decide (0 ≤ amount)%Z && bool_decide (amount ≤ batteries s)%Z)
        >> pure (with_batteries (batteries s - amount))
        >> update_battery_text) s.

Definition add_batteries (amount : Z) : Game → Res :=
  λ s, (py_assert (bool_decide (0 ≤ amount)%Z)
        >> pure (with_batteries (batteries s + amount))
        >> update_battery_text) s.

Definition add_contraption (contraption : nat) : Game → Res :=
  λ s, Ok (with_contraptions (contraptions s ++ [contraption]) s).

(** [list.remove(x)]: drops the first occurrence, [ValueError] when absent. *)
Fixpoint list_remove (x : nat) (l : list nat) : option (list nat) :=
  match l with
  | [] => None
  | y :: l' => if decide (x = y) then Some l' else cons y <$> list_remove x l'
  end.

Definition remove_contraption (contraption : nat) : Game → Res :=
  λ s, match list_remove contraption (contraptions s) with
       | Some l => Ok (with_contraptions l s)
       | None => Raise ValueError s
       end.

Definition increment_round : Game → Res :=
  λ s, (pure (with_rounds (rounds s + 1))
        >> update_round_text
        >> (λ s', if bool_decide (WIN_ROUND ≤ rounds s')%Z then win_game s' else Ok s')) s.

(** ** managers.py: Tile and Actor *)

Definition actor (t : Tile) (s : Game) : option nat := tile_actor s !! t.

Definition is_empty (t : Tile) (s : Game) : bool :=
  bool_decide (tile_actor s !! t = None).

Definition set_actor (t : Tile) (a : nat) : Game → Res :=
  λ s, (py_assert (is_empty t s) >> pure (with_tile_actor <[t:=a]>)) s.

(** [Tile.clear_actor]: the new image is fetched from the manager after the
    field is cleared. *)
Definition clear_actor (t : Tile) : Game → Res :=
  λ s, (py_assert (negb (is_empty t s)) >> pure (with_tile_actor (delete t)) >> manager) s.

(** [self._tile] of the actor object [a]. *)
Definition tile_of (a : nat) (s : Game) : option Tile :=
  heap s !! a ≫= tile.

Definition body_of (a : nat) (s : Game) : option ActorBody :=
  body <$> heap s !! a.

(** What [t.actor()] is, for the [isinstance] tests. *)
Definition actor_body (t : Tile) (s : Game) : option ActorBody :=
  match actor t s with
  | Some a => body_of a s
  | None => None
  end.

Definition is_on_board (a : nat) (s : Game) : bool :=
  bool_decide (is_Some (tile_of a s)).

Definition set_tile (a : nat) (t : option Tile) : Game → Game :=
  with_heap (alter (λ o, mkActor (body o) t) a).

Definition set_body (a : nat) (b : ActorBody) : Game → Game :=
  with_heap (alter (λ o, mkActor b (tile o)) a).

(** [Actor.__init__]: looks the image up in the manager, starts off board. *)
Definition new_actor (b : ActorBody) : Game → Res :=
  manager >> pure (λ s, with_next_id (S (next_id s))
                          (with_heap <[next_id s := mkActor b None]> s)).

Definition remove_from_board (a : nat) : Game → Res :=
  λ s, match tile_of a s with
       | None => Raise AttributeError s
       | Some t => (clear_actor t >> pure (set_tile a None)) s
       end.

Definition teleport (a : nat) (t : Tile) : Game → Res :=
  λ s, ((match tile_of a s with
         | Some t0 => clear_actor t0
         | None => Ok
         end)
        >> pure (set_tile a (Some t))
        >> set_actor t a) s.

(** ** cats.py *)

(** [Cat.__init__] with its three assertions. *)
Definition Cat_init (k : CatClass) (starting_attention needed_rest_time starting_rest_time : Z)
  : option Cat :=
  if bool_decide (0 ≤ starting_attention)%Z
     && bool_decide (1 ≤ needed_rest_time)%Z
     && bool_decide (0 ≤ starting_rest_time)%Z
  then Some (mkCat k starting_attention 0 needed_rest_time starting_rest_time)
  else None.

Definition new_cat (k : CatClass) (initial_rest_time : Z) : option Cat :=
  match k with
  | Tabby => Cat_init Tabby 4 4 initial_rest_time
  | Calico => Cat_init Calico 5 4 initial_rest_time
  | Kitten => Cat_init Kitten 3 6 initial_rest_time
  end.

Definition get_cat (a : nat) (s : Game) : option Cat :=
  match body_of a s with
  | Some (ACat c) => Some c
  | _ => None
  end.

Definition set_attention (v : Z) (c : Cat) : Cat :=
  mkCat (cat_class c) (starting_attention c) v (needed_rest_time c) (rest_time c).

Definition set_rest_time (v : Z) (c : Cat) : Cat :=
  mkCat (cat_class c) (starting_attention c) (attention c) (needed_rest_time c) v.

(** [Cat.distract] of the base class. *)
Definition Cat_distract (self : nat) (amount : Z) : Game → Res :=
  λ s, match get_cat self s with
       | None => Raise AttributeError s
       | Some c =>
           if bool_decide (0 ≤ amount)%Z then
             let c1 := set_attention (attention c - amount) c in
             if bool_decide (attention c1 ≤ 0)%Z then
               let c2 := set_rest_time (needed_rest_time c1) (set_attention 0 c1) in
               remove_from_board self (set_body self (ACat c2) s)
             else Ok (set_body self (ACat c1) s)
           else Raise AssertionError s
       end.

(** [Calico.distract]: the base distraction, then a dodge to the lane above. *)
Definition Calico_distract (self : nat) (amount : Z) : Game → Res :=
  Cat_distract self amount >>
  (λ s, match tile_of self s with
        | Some t =>
            match above t with
            | Some tile_above =>
                if is_empty tile_above s then teleport self tile_above s else Ok s
            | None => Ok s
            end
        | None => Ok s
        end).

(** [cat.distract(amount)] as dispatched on the class of the object. *)
Definition distract (self : nat) (amount : Z) : Game → Res :=
  λ s, match get_cat self s with
       | Some c =>
           match cat_class c with
           | Calico => Calico_distract self amount s
           | _ => Cat_distract self amount s
           end
       | None => Raise AttributeError s
       end.

(** [isinstance(t.actor(), SpaceHeater)] for an optional tile, as in
    [if t and isinstance(t.actor(), SpaceHeater)]. *)
Definition heater_at (t : option Tile) (s : Game) : bool :=
  match t with
  | Some t' =>
      match actor_body t' s with
      | Some (AContraption SpaceHeater) => true
      | _ => false
      end
  | None => false
  end.

(** The inner loop [for j in range(i): if t is None: break; t = t.step()]. *)
Fixpoint walk (step : Tile → option Tile) (i : nat) (t : option Tile) : option Tile :=
  match i with
  | O => t
  | S j =>
      match t with
      | None => None
      | Some t' => walk step j (step t')
      end
  end.

Definition Cat_check_space_heater (self : nat) : Game → Res :=
  λ s,
    let hit := distract self 1 s in
    let tile_ := tile_of self s in
    if heater_at (walk entrance 1 tile_) s then hit
    else if heater_at (walk entrance 2 tile_) s then hit
    else if heater_at (walk exit 1 tile_) s then hit
    else if heater_at (walk exit 2 tile_) s then hit
    else
      match tile_ with
      | None => Raise AttributeError s       (* self._tile.above() on None *)
      | Some t =>
          let lane_below :=
            match below (lane_count s) t with
            | Some tb =>
                if heater_at (Some tb) s then hit
                else if heater_at (entrance tb) s then hit
                else if heater_at (exit tb) s then hit
                else Ok s
            | None => Ok s
            end in
          match above t with
          | Some ta =>
              if heater_at (Some ta) s then hit
              else if heater_at (entrance ta) s then hit
              else if heater_at (exit ta) s then hit
              else lane_below
          | None => lane_below
          end
      end.

(** ** contraptions.py: placing and knocking over *)

Definition get_contraption (a : nat) (s : Game) : option Contraption :=
  match body_of a s with
  | Some (AContraption c) => Some c
  | _ => None
  end.

Definition Contraption_place (self : nat) (t : Tile) : Game → Res :=
  manager >> add_contraption self >> teleport self t.

(** [Contraption.interact]: [self.tile()] asserts that the device is on the
    board. *)
Definition Contraption_interact (self : nat) : Game → Res :=
  λ s, match tile_of self s with
       | None => Raise AssertionError s
       | Some t =>
           (clear_actor t >> pure (set_tile self None)
            >> manager >> remove_contraption self) s
       end.

Definition SnackDispenser_interact (self : nat) (uses : Z) : Game → Res :=
  pure (set_body self (AContraption (SnackDispenser (uses - 1)))) >>
  (if bool_decide (uses - 1 = 0)%Z then Contraption_interact self else Ok).

(** [contraption.interact()] as dispatched on the class of the object. *)
Definition interact (self : nat) : Game → Res :=
  λ s, match get_contraption self s with
       | Some (SnackDispenser uses) => SnackDispenser_interact self uses s
       | Some _ => Contraption_interact self s
       | None => Raise AttributeError s
       end.

(** ** cats.py: moving and resting *)

Definition Cat_move (self : nat) : Game → Res :=
  λ s, match tile_of self s with
       | None => Raise AssertionError s            (* self.tile() *)
       | Some t =>
           match exit t with
           | None => (manager >> lose_game) s
           | Some next_spot =>
               match actor next_spot s with
               | None =>
                   (teleport self next_spot >> Cat_check_space_heater self) s
               | Some other =>
                   match body_of other s with
                   | Some AColorfulBall =>
                       (clear_actor next_spot >> teleport self next_spot
                        >> distract self 1 >> Cat_check_space_heater self) s
                   | Some (AContraption _) => interact other s
                   | _ => Ok s                     (* another cat: wait *)
                   end
               end
           end
       end.

(** The entrance tiles that are empty, in lane order. *)
Definition empty_lanes (s : Game) : list Tile :=
  filter (λ lane, tile_actor s !! lane = None)
         (get_lane_entrance <$> seq 0 (lane_count s)).

(** [Cat.rest].  [draw] stands for the number [random.randint] returns; it is
    reduced into the range [randint] is asked for. *)
Definition Cat_rest (self : nat) (draw : nat) : Game → Res :=
  λ s, match get_cat self s with
       | None => Raise AttributeError s
       | Some c =>
           let c1 := set_rest_time (rest_time c - 1) c in
           let s1 := set_body self (ACat c1) s in
           if bool_decide (rest_time c1 = 0)%Z then
             (manager >>
              (λ s2, match empty_lanes s2 with
                     | [] => Ok (set_body self (ACat (set_rest_time 1 c1)) s2)
                     | first :: others =>
                         let index := draw mod length (first :: others) in
                         let lane_to_add := nth index (first :: others) first in
                         teleport self lane_to_add
                           (set_body self (ACat (set_attention (starting_attention c1) c1)) s2)
                     end)) s1
           else Ok s1
       end.

Definition Cat_end_round (self : nat) (draw : nat) : Game → Res :=
  λ s, if is_on_board self s then Cat_move self s else Cat_rest self draw s.

Definition Kitten_end_round (self : nat) (draw : nat) : Game → Res :=
  λ s, if is_on_board self s then
         (Cat_move self >>
          (λ s', if is_on_board self s' then Cat_move self s' else Ok s')) s
       else Cat_rest self draw s.

(** [cat.end_round()] as dispatched on the class of the object. *)
Definition cat_end_round (self : nat) (draw : nat) : Game → Res :=
  λ s, match get_cat self s with
       | Some c =>
           match cat_class c with
           | Kitten => Kitten_end_round self draw s
           | _ => Cat_end_round self draw s
           end
       | None => Raise AttributeError s
       end.

(** ** contraptions.py: the end-of-round effects *)

Definition is_cat (a : nat) (s : Game) : bool :=
  match body_of a s with
  | Some (ACat _) => true
  | _ => false
  end.

(** The scanning loop shared by the pointers and throwers: [chain] lists the
    tiles the loop variable takes, one [entrance()] after the other. *)
Fixpoint scan (chain : list Tile) : Game → Res :=
  λ s, match chain with
       | [] => Ok s
       | next :: rest =>
           match actor next s with
           | Some a => if is_cat a s then distract a 1 s else scan rest s
           | None => scan rest s
           end
       end.

Definition LaserPointer_end_round (self : nat) : Game → Res :=
  λ s, match tile_of self s with
       | None => Raise AttributeError s
       | Some t => scan (entrance_chain t) s
       end.

Definition BallThrower_end_round (self : nat) : Game → Res :=
  λ s, match tile_of self s with
       | None => Raise AttributeError s
       | Some t => scan (take 3 (entrance_chain t)) s
       end.

Definition shoot_laser (start : Tile) : Game → Res :=
  scan (entrance_chain start).

Definition TripleLaserPointer_end_round (self : nat) : Game → Res :=
  let at_tile (k : Tile → Game → Res) : Game → Res :=
    λ s, match tile_of self s with
         | None => Raise AttributeError s
         | Some t => k t s
         end in
  at_tile shoot_laser
  >> at_tile (λ t, match above t with Some ta => shoot_laser ta | None => Ok end)
  >> at_tile (λ t s, match below (lane_count s) t with
                     | Some tb => shoot_laser tb s
                     | None => Ok s
                     end).

Definition BatteryCharger_end_round (self : nat) (ready : bool) : Game → Res :=
  (if ready
   then manager >> (λ s, Ok (with_batteries (batteries s + 1) s))
        >> manager >> update_battery_text
   else Ok)
  >> pure (set_body self (AContraption (BatteryCharger (negb ready)))).

(** [found_cat] of [ColorfulBallThrower.end_round]: the first loop met a cat. *)
Definition found_cat (window : list Tile) (s : Game) : bool :=
  existsb (λ t, match actor t s with Some a => is_cat a s | None => false end) window.

(** [last_empty] of its second loop. *)
Definition last_empty (window : list Tile) (s : Game) : option Tile :=
  foldl (λ acc t, if is_empty t s then Some t else acc) None window.

Definition ColorfulBallThrower_end_round (self : nat) : Game → Res :=
  λ s, match tile_of self s with
       | None => Raise AttributeError s
       | Some t =>
           let window := take 3 (entrance_chain t) in
           if found_cat window s then scan window s
           else
             match last_empty window s with
             | Some target =>
                 (new_actor AColorfulBall >> teleport (next_id s) target) s
             | None => Ok s
             end
       end.

(** [contraption.end_round()] as dispatched on the class of the object. *)
Definition contraption_end_round (self : nat) : Game → Res :=
  λ s, match get_contraption self s with
       | Some LaserPointer => LaserPointer_end_round self s
       | Some (BatteryCharger ready) => BatteryCharger_end_round self ready s
       | Some BallThrower => BallThrower_end_round self s
       | Some TripleLaserPointer => TripleLaserPointer_end_round self s
       | Some ColorfulBallThrower => ColorfulBallThrower_end_round self s
       | Some (SnackDispenser _) | Some SpaceHeater => Ok s
       | None => Raise AttributeError s
       end.

(** ** managers.py: the round and the placement *)

(** [for contraption in self._contraptions]: Python walks the live list by
    index.  The fuel is the length of the list when the loop starts. *)
Fixpoint for_contraptions (fuel i : nat) : Game → Res :=
  λ s, match fuel with
       | O => Ok s
       | S fuel' =>
           match contraptions s !! i with
           | None => Ok s
           | Some contraption =>
               (contraption_end_round contraption >> for_contraptions fuel' (S i)) s
           end
       end.

(** [for cat in self._cats] with its early [return]; [after] is the rest of
    [end_round], run only when the loop runs to its end. *)
Fixpoint for_cats (draws : nat → nat) (l : list nat) (after : Game → Res) : Game → Res :=
  λ s, match l with
       | [] => after s
       | cat :: l' =>
           match cat_end_round cat (draws cat) s with
           | Ok s' => if game_ended s' then Ok s' else for_cats draws l' after s'
           | Raise e s' => Raise e s'
           end
       end.

(** [GameManager.end_round].  [update_attentions] only redraws a label. *)
Definition end_round (draws : nat → nat) : Game → Res :=
  add_batteries 1
  >> (λ s, for_contraptions (length (contraptions s)) 0 s)
  >> (λ s, for_cats draws (cats s) increment_round s).

(** [GameManager.initialize], without the window: a board of [lanes] lanes
    and the cats that the given constructors build, all off the board. *)
Definition empty_game (lanes : nat) : Game :=
  mkGame lanes ∅ ∅ 0 STARTING_BATTERIES 0 [] [] false true None [].

Fixpoint add_cats (l : list (CatClass * Z)) (s : Game) : option Game :=
  match l with
  | [] => Some s
  | (k, initial_rest_time) :: l' =>
      match new_cat k initial_rest_time with
      | Some c =>
          add_cats l'
            (with_cats (cats s ++ [next_id s])
               (with_next_id (S (next_id s))
                  (with_heap <[next_id s := mkActor (ACat c) None]> s)))
      | None => None
      end
  end.

Definition initialize (lanes : nat) (l : list (CatClass * Z)) : option Game :=
  add_cats l (empty_game lanes).

(** [Tile._clicked]: the placement of the selected contraption. *)
Definition Tile_clicked (t : Tile) : Game → Res :=
  manager >>
  (λ s, match current_selector s with
        | None => Ok s
        | Some k =>
            let selected := construct k in
            let can_build :=
              bool_decide (is_Some (entrance t)) && is_empty t s
              && bool_decide (cost selected ≤ batteries s)%Z in
            if can_build then
              (spend_batteries (cost selected)
               >> new_actor (AContraption (construct k))
               >> pure (with_current_selector None)
               >> Contraption_place (next_id s) t) s
            else Ok s
        end).

(** ** Vocabulary of the statements below *)

(** The cat object [self], with fields [c], stands on tile [t], and the tile
    points back at it. *)
Definition cat_at (self : nat) (c : Cat) (t : Tile) (s : Game) : Prop :=
  heap s !! self = Some (mkActor (ACat c) (Some t)) ∧ tile_actor s !! t = Some self.

Definition attention_of (a : nat) (s : Game) : option Z :=
  attention <$> get_cat a s.

(** The fields of a cat after [distract(amount)]. *)
Definition distracted (amount : Z) (c : Cat) : Cat :=
  if bool_decide (attention c - amount ≤ 0)%Z
  then set_rest_time (needed_rest_time c) (set_attention 0 c)
  else set_attention (attention c - amount) c.

(** [n] calls of the same command in a row. *)
Fixpoint repeat_cmd (n : nat) (c : Game → Res) : Game → Res :=
  match n with
  | O => Ok
  | S n' => c >> repeat_cmd n' c
  end.

(** A SnackDispenser [self] with [uses] interactions left stands on [t], is
    registered last, after [others]. *)
Definition snack_on_board (self : nat) (t : Tile) (uses : Z) (others : list nat) (s : Game) : Prop :=
  instance s = true
  ∧ heap s !! self = Some (mkActor (AContraption (SnackDispenser uses)) (Some t))
  ∧ tile_actor s !! t = Some self
  ∧ contraptions s = others ++ [self].

(** The conditions under which a click on tile [t] builds a contraption of
    class [k]: not the entrance tile of its lane, empty, affordable. *)
Definition can_build (t : Tile) (k : ContraptionClass) (s : Game) : Prop :=
  t ≠ get_lane_entrance t.1
  ∧ tile_actor s !! t = None
  ∧ (cost (construct k) ≤ batteries s)%Z.

(** The fields of the manager and of the board shape, which no move of a
    cat and no distraction touches. *)
Definition same_manager (s s' : Game) : Prop :=
  lane_count s' = lane_count s ∧ next_id s' = next_id s
  ∧ batteries s' = batteries s ∧ rounds s' = rounds s
  ∧ contraptions s' = contraptions s ∧ cats s' = cats s
  ∧ game_ended s' = game_ended s ∧ instance s' = instance s
  ∧ current_selector s' = current_selector s ∧ stdout s' = stdout s.

(** The tiles [Cat._check_space_heater] looks at from tile [t], in the order
    it looks at them: its own lane towards the entrance (one step, two
    steps), its own lane towards the exit (one step, two steps), the lane
    above (same column, entrance side, exit side), the lane below (the same
    three).  Tiles that do not exist are left out. *)
Definition scan_order (lanes : nat) (t : Tile) : list Tile :=
  let around (o : option Tile) : list (option Tile) :=
    match o with
    | Some t' => [Some t'; entrance t'; exit t']
    | None => []
    end in
  omap id ([walk entrance 1 (Some t); walk entrance 2 (Some t);
            walk exit 1 (Some t); walk exit 2 (Some t)]
           ++ around (above t) ++ around (below lanes t)).

(** The same tiles by coordinates: the own lane at column offsets 1 and 2 on
    either side, the two adjacent lanes at column offsets -1, 0 and 1. *)
Definition in_heater_range (lanes : nat) (t t' : Tile) : Prop :=
  on_board lanes t'
  ∧ ((t'.1 = t.1
      ∧ (t'.2 = t.2 + 1 ∨ t'.2 = t.2 + 2 ∨ t'.2 + 1 = t.2 ∨ t'.2 + 2 = t.2))
     ∨ ((t'.1 + 1 = t.1 ∨ t'.1 = t.1 + 1)
        ∧ (t'.2 = t.2 ∨ t'.2 = t.2 + 1 ∨ t'.2 + 1 = t.2))).

Definition heater_in_range (t : Tile) (s : Game) : bool :=
  existsb (λ t', heater_at (Some t') s) (scan_order (lane_count s) t).

(** No cat stands on tile [t]. *)
Definition no_cat_at (t : Tile) (s : Game) : Prop :=
  ∀ a, actor t s = Some a → is_cat a s = false.

(** ** Concrete games *)

(** The player picks a contraption class in the selection bar. *)
Definition select (k : ContraptionClass) : Game → Res :=
  pure (with_current_selector (Some k)).

(** Every cat that enters takes the first empty lane. *)
Definition first_lane : nat → nat := λ _, 0.

(** A game of one lane played from [GameManager.initialize]. *)
Definition play (l : list (CatClass * Z)) (moves : Game → Res) : Res :=
  match initialize 1 l with
  | Some g => moves g
  | None => Raise AssertionError (empty_game 1)
  end.

Definition state_of (r : Res) : Game :=
  match r with
  | Ok s => s
  | Raise _ s => s
  end.

(** One Tabby; a SnackDispenser is bought on (0,6) before the first round,
    the Tabby enters on (0,7) and is held there; after three rounds the
    player can afford a LaserPointer and puts it on (0,5). *)
Definition laser_behind_snack : Game :=
  state_of (play [(Tabby, 1%Z)]
              (select KSnackDispenser >> Tile_clicked (0, 6)
               >> end_round first_lane >> end_round first_lane >> end_round first_lane
               >> select KLaserPointer >> Tile_clicked (0, 5))).


(** ** The round as the specification words it *)

(** The calls of one round. *)
Inductive Step :=
| Grant                      (* add one battery *)
| DeviceEnd (device : nat)   (* end_round of a registered contraption *)
| UnitEnd (unit : nat)       (* end_round of a cat *)
| Bookkeeping.               (* count the round, win at the threshold *)

(** The order of the calls in a round that starts in state [s]: the grant,
    the contraptions in registration order, the cats in creation order, the
    round counter. *)
Definition round_steps (s : Game) : list Step :=
  Grant :: (DeviceEnd <$> contraptions s) ++ (UnitEnd <$> cats s) ++ [Bookkeeping].

Definition run_step (draws : nat → nat) (st : Step) : Game → Res :=
  match st with
  | Grant => add_batteries 1
  | DeviceEnd device => contraption_end_round device
  | UnitEnd unit => cat_end_round unit (draws unit)
  | Bookkeeping => increment_round
  end.

Definition is_unit (st : Step) : bool :=
  match st with
  | UnitEnd _ => true
  | _ => false
  end.

(** The calls are made one after the other; the round stops after the call
    of a cat that has ended the game. *)
Fixpoint run_steps (draws : nat → nat) (l : list Step) : Game → Res :=
  λ s, match l with
       | [] => Ok s
       | st :: l' =>
           match run_step draws st s with
           | Ok s' =>
               if is_unit st && game_ended s' then Ok s'
               else run_steps draws l' s'
           | Raise e s' => Raise e s'
           end
       end.

(** A command that leaves the two registries of the manager as they are. *)
Definition keeps_registries (f : Game → Res) : Prop :=
  ∀ s s', f s = Ok s' → contraptions s' = contraptions s ∧ cats s' = cats s.

(** One Tabby and a ColorfulBallThrower bought on (0,0) before the first
    round.  After four rounds the thrower has put balls on (0,3), (0,2) and
    (0,1), and the Tabby, with all its attention, stands on (0,4) in front of
    the first ball. *)
Definition tabby_before_ball : Game :=
  state_of (play [(Tabby, 1%Z)]
              (select KColorfulBallThrower >> Tile_clicked (0, 0)
               >> end_round first_lane >> end_round first_lane
               >> end_round first_lane >> end_round first_lane)).

(** The same purchase against one Kitten, three rounds played: the Kitten
    has picked up the ball of (0,3), has 2 attention left and faces the ball
    of (0,2), with the thrower about to act. *)
Definition kitten_among_balls : Game :=
  state_of (play [(Kitten, 1%Z)]
              (select KColorfulBallThrower >> Tile_clicked (0, 0)
               >> end_round first_lane >> end_round first_lane
               >> end_round first_lane)).

(** One Kitten and a LaserPointer bought on (0,6) before the first round.
    The Kitten knocks the pointer over on its way, and after five rounds it
    stands on (0,0), the last tile of the lane. *)
Definition kitten_at_goal : Game :=
  state_of (play [(Kitten, 1%Z)]
              (select KLaserPointer >> Tile_clicked (0, 6)
               >> end_round first_lane >> end_round first_lane
               >> end_round first_lane >> end_round first_lane
               >> end_round first_lane)).

(** One Tabby and a SpaceHeater bought on (0,4); after two rounds the Tabby
    stands on (0,6), two tiles from the heater. *)
Definition tabby_near_heater : Game :=
  state_of (play [(Tabby, 1%Z)]
              (select KSpaceHeater >> Tile_clicked (0, 4)
               >> end_round first_lane >> end_round first_lane)).

(** A new game whose only cat is built by [Tabby(0)]. *)
Definition tabby_rest_zero : Game :=
  state_of (play [(Tabby, 0%Z)] Ok).

(** A new game in which the player has selected the SnackDispenser. *)
Definition snack_selected : Game :=
  state_of (play [(Tabby, 1%Z)] (select KSnackDispenser)).

(** ** The invariants as the specification words them *)

(** No two actors report the same tile. *)
Definition no_shared_tile (s : Game) : Prop :=
  ∀ a b t, tile_of a s = Some t → tile_of b s = Some t → a = b.

(** The occupant of a tile reports that tile. *)
Definition occupants_point_back (s : Game) : Prop :=
  ∀ t a, actor t s = Some a → tile_of a s = Some t.

(** A cat is either on the board with attention left, or off the board with
    no attention and a rest time that is not negative; and its rest time is 0
    exactly when it is on the board. *)
Definition cat_invariant (c : Cat) (on_the_board : bool) : Prop :=
  (on_the_board = true ∧ (0 < attention c)%Z
   ∨ on_the_board = false ∧ (0 ≤ rest_time c)%Z ∧ attention c = 0%Z)
  ∧ (rest_time c = 0%Z ↔ on_the_board = true).

(** ** Vocabulary of the further properties *)

(** The board once the actor [a] has left the tile it reports, if any. *)
Definition leave (a : nat) (s : Game) : Game :=
  match tile_of a s with
  | Some t0 => with_tile_actor (delete t0) s
  | None => s
  end.

(** The links between tiles and actors are sound: the occupant of a tile
    reports that tile; an actor other than a ball that reports a tile is the
    occupant of that tile; and no object lives at an identity that has not
    been given out yet. *)
Definition links_ok (s : Game) : Prop :=
  (∀ t a, actor t s = Some a → tile_of a s = Some t)
  ∧ (∀ a t, tile_of a s = Some t → body_of a s ≠ Some AColorfulBall →
            actor t s = Some a)
  ∧ (∀ a, next_id s ≤ a → heap s !! a = None).

(** Every cat of the store satisfies the invariant of cats, rests at least
    one round after a distraction and enters the board with attention. *)
Definition cats_ok (s : Game) : Prop :=
  ∀ a c, get_cat a s = Some c →
         cat_invariant c (is_on_board a s)
         ∧ (1 ≤ needed_rest_time c)%Z ∧ (0 < starting_attention c)%Z.

(** A command keeps the property [P] of the game whenever it returns. *)
Definition preserves (P : Game → Prop) (f : Game → Res) : Prop :=
  ∀ s s', P s → f s = Ok s' → P s'.
(** The links, and with [strict] also the invariant of cats. *)
Definition game_ok (strict : bool) (s : Game) : Prop :=
  links_ok s ∧ (strict = true → cats_ok s).
(** The games that can be reached from [GameManager.initialize] with
    [lanes] lanes and the cats of [l]: the player selects a contraption
    class, clicks a tile of the board, or ends the turn, and the command
    returns. *)
Inductive reachable (lanes : nat) (l : list (CatClass * Z)) : Game → Prop :=
| reach_initialize s :
    initialize lanes l = Some s → reachable lanes l s
| reach_select k s :
    reachable lanes l s → reachable lanes l (with_current_selector (Some k) s)
| reach_click t s s' :
    reachable lanes l s → on_board (lane_count s) t → Tile_clicked t s = Ok s' →
    reachable lanes l s'
| reach_end_round draws s s' :
    reachable lanes l s → end_round draws s = Ok s' → reachable lanes l s'.


(** One Tabby and a BatteryCharger bought on (0,3) before the first round. *)
Definition charger_built : Game :=
  state_of (play [(Tabby, 1%Z)] (select KBatteryCharger >> Tile_clicked (0, 3))).

(** Every cat that enters takes the second empty lane. *)
Definition second_lane : nat → nat := λ _, 1.

(** Two lanes and one Calico, which enters on (1,7) in the first round. *)
Definition calico_below : Game :=
  match initialize 2 [(Calico, 1%Z)] with
  | Some g => state_of (end_round second_lane g)
  | None => empty_game 2
  end.

(** * Proofs *)

(** ** Sequencing *)

Lemma seq_cmd_ok f g s s1 : f s = Ok s1 → (f >> g) s = g s1.
Proof. intros H. unfold seq_cmd. by rewrite H. Qed.

Lemma seq_cmd_raise f g s e s1 : f s = Raise e s1 → (f >> g) s = Raise e s1.
Proof. intros H. unfold seq_cmd. by rewrite H. Qed.

Lemma seq_cmd_assoc f g h s : (f >> (g >> h)) s = (f >> g >> h) s.
Proof. unfold seq_cmd. by destruct (f s). Qed.

(** ** Tiles and actors *)

Lemma manager_ok s : instance s = true → manager s = Ok s.
Proof. intros H. unfold manager, py_assert. by rewrite H. Qed.

Lemma clear_actor_ok t a s :
  instance s = true → tile_actor s !! t = Some a →
  clear_actor t s = Ok (with_tile_actor (delete t) s).
Proof.
  intros Hi Ha. unfold clear_actor, seq_cmd, py_assert, is_empty, manager, pure.
  rewrite bool_decide_false by (rewrite Ha; done). simpl. by rewrite Hi.
Qed.

Lemma set_actor_ok t a s :
  tile_actor s !! t = None → set_actor t a s = Ok (with_tile_actor <[t:=a]> s).
Proof.
  intros H. unfold set_actor, seq_cmd, py_assert, is_empty, pure.
  by rewrite bool_decide_true.
Qed.

Lemma tile_of_lookup a o s : heap s !! a = Some o → tile_of a s = tile o.
Proof. intros H. unfold tile_of. by rewrite H. Qed.


Lemma teleport_on_board a t0 t b s :
  instance s = true → tile_of a s = Some t0 → tile_actor s !! t0 = Some b →
  delete t0 (tile_actor s) !! t = None →
  teleport a t s =
    Ok (with_tile_actor <[t:=a]> (set_tile a (Some t) (with_tile_actor (delete t0) s))).
Proof.
  intros Hi Ht Hb He. unfold teleport. rewrite Ht.
  rewrite <- seq_cmd_assoc. erewrite seq_cmd_ok by (by eapply clear_actor_ok).
  unfold seq_cmd at 1, pure. by rewrite set_actor_ok.
Qed.

Lemma teleport_off_board a t s :
  tile_of a s = None → tile_actor s !! t = None →
  teleport a t s = Ok (with_tile_actor <[t:=a]> (set_tile a (Some t) s)).
Proof.
  intros Ht He. unfold teleport. rewrite Ht.
  unfold seq_cmd at 1 2, pure. by rewrite set_actor_ok.
Qed.

(** ** The snack dispenser *)

Lemma list_remove_last x l : x ∉ l → list_remove x (l ++ [x]) = Some l.
Proof.
  induction l as [|y l IH]; simpl; intros Hx.
  - by rewrite decide_True.
  - apply not_elem_of_cons in Hx as [Hxy Hx].
    rewrite decide_False by done. by rewrite IH.
Qed.

Lemma get_contraption_lookup a c t s :
  heap s !! a = Some (mkActor (AContraption c) t) → get_contraption a s = Some c.
Proof. intros H. unfold get_contraption, body_of. by rewrite H. Qed.

Lemma interact_snack_more self t uses others s :
  snack_on_board self t uses others s → (uses - 1 ≠ 0)%Z →
  ∃ s', interact self s = Ok s' ∧ snack_on_board self t (uses - 1) others s'.
Proof.
  intros (Hi & Hh & Ht & Hc) Hu. unfold interact.
  erewrite get_contraption_lookup by done.
  unfold SnackDispenser_interact, seq_cmd, pure.
  rewrite bool_decide_false by done.
  eexists; split; [done|]. repeat split; simpl; try done.
  by rewrite lookup_alter_eq, Hh.
Qed.

Lemma interact_snack_last self t others s :
  snack_on_board self t 1 others s → self ∉ others →
  ∃ s', interact self s = Ok s' ∧ tile_of self s' = None ∧ tile_actor s' !! t = None
        ∧ contraptions s' = others ∧ instance s' = true.
Proof.
  intros (Hi & Hh & Ht & Hc) Hn. unfold interact.
  erewrite get_contraption_lookup by done.
  unfold SnackDispenser_interact. unfold seq_cmd at 1, pure.
  rewrite bool_decide_true by done.
  unfold Contraption_interact.
  erewrite tile_of_lookup by (simpl; by rewrite lookup_alter_eq, Hh). simpl.
  unfold seq_cmd at 1 2 3.
  erewrite clear_actor_ok by done. unfold pure.
  rewrite manager_ok by done.
  unfold remove_contraption. simpl. rewrite Hc, list_remove_last by done.
  eexists; split; [done|]. simpl. repeat split; try done.
  - unfold tile_of. simpl. rewrite lookup_alter_eq, lookup_alter_eq, Hh. done.
  - by rewrite lookup_delete_eq.
Qed.

Lemma place_snack self t s :
  self = next_id s → instance s = true → tile_actor s !! t = None →
  ∃ s', (new_actor (AContraption (construct KSnackDispenser)) >> Contraption_place self t) s = Ok s'
        ∧ snack_on_board self t 5 (contraptions s) s'.
Proof.
  intros -> Hi Ht. unfold new_actor, Contraption_place.
  unfold seq_cmd at 1 2. rewrite manager_ok by done. unfold pure.
  unfold seq_cmd at 1 2. rewrite manager_ok by done.
  unfold add_contraption. rewrite teleport_off_board.
  - eexists; split; [done|]. repeat split; simpl; try done.
    + by rewrite lookup_alter_eq, lookup_insert_eq.
    + by rewrite lookup_insert_eq.
  - unfold tile_of. simpl. by rewrite lookup_insert_eq.
  - done.
Qed.

Lemma snack_survives self t others n : ∀ uses s,
  snack_on_board self t uses others s → (Z.of_nat n < uses)%Z →
  ∃ s', repeat_cmd n (interact self) s = Ok s'
        ∧ snack_on_board self t (uses - Z.of_nat n) others s'.
Proof.
  induction n as [|n IH]; intros uses s Hs Hn.
  - exists s. split; [done|]. by replace (uses - Z.of_nat 0)%Z with uses by lia.
  - destruct (interact_snack_more _ _ _ _ _ Hs) as (s1 & H1 & Hs1); [lia|].
    destruct (IH _ _ Hs1) as (s2 & H2 & Hs2); [lia|].
    exists s2. split.
    + simpl. by rewrite (seq_cmd_ok _ _ _ _ H1).
    + by replace (uses - Z.of_nat (S n))%Z with (uses - 1 - Z.of_nat n)%Z by lia.
Qed.

(** C10. A SnackDispenser is built and placed on an empty tile, then
    [interact] is called on it.  After each of the first 4 calls it is still
    on the board, still the occupant of its tile and still registered; the
    5th call takes it off its tile and out of the registry, which is then
    what it was before the placement, so empty when the dispenser was the
    only contraption. *)
Theorem SnackDispenser_five_interactions (s : Game) (t : Tile) :
  instance s = true → tile_actor s !! t = None → next_id s ∉ contraptions s →
  let self := next_id s in
  let placed := new_actor (AContraption (construct KSnackDispenser)) >> Contraption_place self t in
  (∀ n, n ≤ 4 →
     ∃ s', (placed >> repeat_cmd n (interact self)) s = Ok s'
           ∧ is_on_board self s' = true ∧ actor t s' = Some self
           ∧ self ∈ contraptions s'
           ∧ length (contraptions s') = S (length (contraptions s)))
  ∧ (∃ s', (placed >> repeat_cmd 5 (interact self)) s = Ok s'
           ∧ is_on_board self s' = false ∧ actor t s' = None
           ∧ (self ∉ contraptions s')
           ∧ contraptions s' = contraptions s)
  ∧ (contraptions s = [] →
     ∃ s', (placed >> repeat_cmd 5 (interact self)) s = Ok s'
           ∧ length (contraptions s') = 0).
Proof.
  intros Hi Ht Hfresh self placed.
  destruct (place_snack self t s eq_refl Hi Ht) as (s0 & H0 & Hs0).
  assert (Hlast : ∃ s', (placed >> repeat_cmd 5 (interact self)) s = Ok s'
           ∧ is_on_board self s' = false ∧ actor t s' = None
           ∧ (self ∉ contraptions s') ∧ contraptions s' = contraptions s).
  { destruct (snack_survives self t _ 4 5%Z s0 Hs0) as (s4 & H4 & Hs4); [lia|].
    destruct (interact_snack_last _ _ _ _ Hs4 Hfresh) as (s5 & H5 & Htile & Hocc & Hreg & _).
    exists s5. split.
    - unfold placed. rewrite (seq_cmd_ok _ _ _ _ H0).
      change (repeat_cmd 5 (interact self)) with
        (interact self >> (interact self >> (interact self >> (interact self >>
           (interact self >> Ok))))).
      simpl in H4. unfold seq_cmd in *.
      destruct (interact self s0) as [s1|]; [|done].
      destruct (interact self s1) as [s2|]; [|done].
      destruct (interact self s2) as [s3|]; [|done].
      destruct (interact self s3) as [s4'|]; [|done].
      injection H4 as ->. by rewrite H5.
    - unfold is_on_board, actor. rewrite Htile, Hocc, Hreg.
      repeat split; try done. }
  split; [|split].
  - intros n Hn.
    destruct (snack_survives self t _ n 5%Z s0 Hs0) as (s' & Hrun & Hi' & Hh & Hocc & Hreg); [lia|].
    exists s'. split; [by unfold placed; rewrite (seq_cmd_ok _ _ _ _ H0)|].
    unfold is_on_board, actor. erewrite tile_of_lookup by done. simpl.
    rewrite Hocc, Hreg, length_app. simpl.
    repeat split; try done; try lia.
    apply elem_of_app. right. by apply list_elem_of_singleton.
  - exact Hlast.
  - intros Hempty. destruct Hlast as (s' & Hrun & _ & _ & _ & Hreg).
    exists s'. split; [done|]. by rewrite Hreg, Hempty.
Qed.

(** ** The bookkeeping commands when their assertions hold *)

Lemma spend_batteries_ok amount s :
  (0 ≤ amount ≤ batteries s)%Z →
  spend_batteries amount s = Ok (with_batteries (batteries s - amount) s).
Proof.
  intros H. unfold spend_batteries, update_battery_text, py_assert, pure, seq_cmd.
  rewrite !bool_decide_true by lia. simpl. by rewrite bool_decide_true by lia.
Qed.

Lemma add_batteries_ok amount s :
  (0 ≤ amount)%Z → (0 ≤ batteries s)%Z →
  add_batteries amount s = Ok (with_batteries (batteries s + amount) s).
Proof.
  intros H1 H2. unfold add_batteries, update_battery_text, py_assert, pure, seq_cmd.
  rewrite bool_decide_true by lia. simpl. by rewrite bool_decide_true by lia.
Qed.

Lemma new_actor_ok b s :
  instance s = true →
  new_actor b s =
    Ok (with_next_id (S (next_id s)) (with_heap <[next_id s := mkActor b None]> s)).
Proof. intros Hi. unfold new_actor. by rewrite (seq_cmd_ok manager _ s _ (manager_ok _ Hi)). Qed.

Lemma Contraption_place_ok self t s :
  instance s = true → tile_of self s = None → tile_actor s !! t = None →
  Contraption_place self t s =
    Ok (with_tile_actor <[t:=self]>
          (set_tile self (Some t) (with_contraptions (contraptions s ++ [self]) s))).
Proof.
  intros Hi Ht He. unfold Contraption_place.
  rewrite <- seq_cmd_assoc, (seq_cmd_ok manager _ s _ (manager_ok _ Hi)).
  unfold seq_cmd, add_contraption. by rewrite teleport_off_board.
Qed.

(** ** Placement *)

Lemma entrance_is_Some t :
  t.2 < LANE_WIDTH → (is_Some (entrance t) ↔ t ≠ get_lane_entrance t.1).
Proof.
  destruct t as [r c]. unfold entrance, get_lane_entrance, LANE_WIDTH. simpl.
  intros Hc. case_decide.
  - split; [|by eexists]. intros _ [=]. lia.
  - split; [by intros [? ?]|]. intros Hne. exfalso. apply Hne. f_equal. lia.
Qed.

Lemma cost_nonneg c : (0 ≤ cost c)%Z.
Proof. destruct c; simpl; lia. Qed.

(** C8. A click on an existing tile with a contraption class selected does
    nothing and charges nothing unless the tile is not a lane entrance, is
    empty and the cost is at most the balance; when all three hold it deducts
    exactly the cost, builds the contraption, registers it last in the list
    of active contraptions and attaches it to the tile.  With nothing
    selected the click does nothing. *)
Theorem Tile_clicked_placement (t : Tile) (s : Game) :
  instance s = true → on_board (lane_count s) t →
  (current_selector s = None → Tile_clicked t s = Ok s)
  ∧ (∀ k, current_selector s = Some k →
       (¬ can_build t k s → Tile_clicked t s = Ok s)
       ∧ (can_build t k s →
          ∃ s', Tile_clicked t s = Ok s'
                ∧ batteries s' = (batteries s - cost (construct k))%Z
                ∧ heap s' = <[next_id s := mkActor (AContraption (construct k)) (Some t)]> (heap s)
                ∧ contraptions s' = contraptions s ++ [next_id s]
                ∧ tile_actor s' = <[t := next_id s]> (tile_actor s)
                ∧ rounds s' = rounds s ∧ cats s' = cats s)).
Proof.
  intros Hi [_ Hcol]. split.
  - intros Hsel. unfold Tile_clicked. rewrite (seq_cmd_ok _ _ _ _ (manager_ok _ Hi)).
    by rewrite Hsel.
  - intros k Hsel. unfold Tile_clicked.
    rewrite (seq_cmd_ok _ _ _ _ (manager_ok _ Hi)). rewrite Hsel.
    pose proof (entrance_is_Some t Hcol) as Hent.
    split.
    + intros Hno.
      destruct (bool_decide (is_Some (entrance t))) eqn:E1; [|done].
      destruct (is_empty t s) eqn:E2; [|done].
      destruct (bool_decide (cost (construct k) ≤ batteries s)%Z) eqn:E3; [|done].
      exfalso. apply Hno. unfold can_build.
      apply bool_decide_eq_true in E1, E3. unfold is_empty in E2.
      apply bool_decide_eq_true in E2. by rewrite <- Hent.
    + intros (Hne & Hempty & Hcost).
      rewrite bool_decide_true by (by apply Hent).
      unfold is_empty. rewrite bool_decide_true by done.
      rewrite bool_decide_true by done. simpl.
      pose proof (cost_nonneg (construct k)) as Hpos.
      rewrite <- !seq_cmd_assoc.
      rewrite (seq_cmd_ok (spend_batteries _) _ s _ (spend_batteries_ok _ _ (conj Hpos Hcost))).
      erewrite seq_cmd_ok by (by apply new_actor_ok).
      unfold seq_cmd at 1, pure.
      rewrite Contraption_place_ok; simpl; try done.
      * eexists. split; [done|]. simpl. repeat split.
        apply map_eq. intros a. destruct (decide (a = next_id s)) as [->|Ha].
        -- by rewrite lookup_alter_eq, !lookup_insert_eq.
        -- by rewrite lookup_alter_ne, !lookup_insert_ne.
      * unfold tile_of. simpl. by rewrite lookup_insert_eq.
Qed.

(** ** Distraction *)

Lemma get_cat_lookup a c t s :
  heap s !! a = Some (mkActor (ACat c) t) → get_cat a s = Some c.
Proof. intros H. unfold get_cat, body_of. by rewrite H. Qed.

Lemma same_manager_refl s : same_manager s s.
Proof. by repeat split. Qed.

Lemma Cat_distract_on_board self c t amount s :
  instance s = true → cat_at self c t s → (0 ≤ amount)%Z →
  Cat_distract self amount s =
    Ok (if bool_decide (attention c - amount ≤ 0)%Z
        then set_tile self None
               (with_tile_actor (delete t) (set_body self (ACat (distracted amount c)) s))
        else set_body self (ACat (distracted amount c)) s).
Proof.
  intros Hi [Hh Ht] Ha. unfold Cat_distract, distracted.
  rewrite (get_cat_lookup _ _ _ _ Hh). rewrite bool_decide_true by done.
  simpl. destruct (bool_decide (attention c - amount ≤ 0)%Z) eqn:E; [|done].
  unfold remove_from_board.
  erewrite tile_of_lookup by (simpl; by rewrite lookup_alter_eq, Hh). simpl.
  erewrite seq_cmd_ok by (by eapply clear_actor_ok). done.
Qed.

(** What [distract] does to a cat that is on the board: the class decides
    only whether the cat may end on the tile above. *)
Lemma distract_on_board self c t amount s :
  instance s = true → cat_at self c t s → (0 ≤ amount)%Z →
  ∃ s', distract self amount s = Ok s'
        ∧ get_cat self s' = Some (distracted amount c)
        ∧ same_manager s s'
        ∧ (∀ a, a ≠ self → heap s' !! a = heap s !! a)
        ∧ (if bool_decide (attention c - amount ≤ 0)%Z
           then tile_of self s' = None ∧ tile_actor s' = delete t (tile_actor s)
           else ∃ t', cat_at self (distracted amount c) t' s'
                      ∧ tile_actor s' = <[t':=self]> (delete t (tile_actor s))
                      ∧ (t' = t ∨ cat_class c = Calico ∧ above t = Some t'
                                   ∧ tile_actor s !! t' = None)).
Proof.
  intros Hi Hat Ha. pose proof Hat as [Hh Ht].
  pose proof (Cat_distract_on_board _ _ _ _ _ Hi Hat Ha) as Hbase.
  assert (Hstay : bool_decide (attention c - amount ≤ 0)%Z = false →
            cat_at self (distracted amount c) t (set_body self (ACat (distracted amount c)) s)
            ∧ tile_actor s = <[t:=self]> (delete t (tile_actor s))).
  { intros _. split; [split|]; simpl.
    - by rewrite lookup_alter_eq, Hh.
    - done.
    - by rewrite insert_delete_id. }
  assert (Hother : ∀ (b : ActorBody) (o : option Tile) a, a ≠ self →
            alter (λ x, mkActor (body x) o) self (alter (λ x, mkActor b (tile x)) self (heap s)) !! a
            = heap s !! a).
  { intros b o a Hne. by rewrite !lookup_alter_ne. }
  unfold distract. rewrite (get_cat_lookup _ _ _ _ Hh).
  destruct (cat_class c) eqn:Hclass.
  1, 3: rewrite Hbase; eexists; split; [done|];
    destruct (bool_decide (attention c - amount ≤ 0)%Z) eqn:E; simpl;
    (split; [unfold get_cat, body_of; simpl;
             rewrite ?lookup_alter_eq, Hh; done|]);
    (split; [by repeat split|]);
    (split; [intros a Hne; simpl; by rewrite ?lookup_alter_ne|]);
    [ split; [unfold tile_of; simpl; by rewrite !lookup_alter_eq, Hh|done]
    | exists t; destruct (Hstay eq_refl) as [H1 H2]; split; [done|]; split; [done|by left] ].
  (* Calico *)
  unfold Calico_distract. rewrite (seq_cmd_ok _ _ _ _ Hbase).
  destruct (bool_decide (attention c - amount ≤ 0)%Z) eqn:E.
  - erewrite tile_of_lookup by (simpl; by rewrite !lookup_alter_eq, Hh). simpl.
    eexists; split; [done|]. simpl.
    split; [unfold get_cat, body_of; simpl; by rewrite !lookup_alter_eq, Hh|].
    split; [by repeat split|].
    split; [intros a Hne; by rewrite !lookup_alter_ne|].
    split; [unfold tile_of; simpl; by rewrite !lookup_alter_eq, Hh|done].
  - destruct (Hstay eq_refl) as [[Hh1 Ht1] Hsame].
    erewrite tile_of_lookup by done. simpl.
    destruct (above t) as [ta|] eqn:Hab.
    + unfold is_empty. simpl.
      destruct (bool_decide (tile_actor s !! ta = None)) eqn:Eempty.
      * apply bool_decide_eq_true in Eempty.
        assert (ta ≠ t) as Hne by (intros ->; congruence).
        erewrite teleport_on_board; [|done| |done|].
        -- eexists; split; [done|]. simpl.
           split; [unfold get_cat, body_of; simpl; by rewrite !lookup_alter_eq, Hh|].
           split; [by repeat split|].
           split; [intros a Hna; by rewrite !lookup_alter_ne|].
           exists ta. split; [split; simpl|].
           ++ by rewrite !lookup_alter_eq, Hh.
           ++ by rewrite lookup_insert_eq.
           ++ split; [done|]. right. done.
        -- by rewrite (tile_of_lookup _ _ _ Hh1).
        -- simpl. by rewrite lookup_delete_ne.
      * eexists; split; [done|].
        split; [by apply get_cat_lookup in Hh1|].
        split; [by repeat split|].
        split; [intros a Hna; simpl; by rewrite !lookup_alter_ne|].
        exists t. split; [done|]. split; [done|by left].
    + eexists; split; [done|].
      split; [by apply get_cat_lookup in Hh1|].
      split; [by repeat split|].
      split; [intros a Hna; simpl; by rewrite !lookup_alter_ne|].
      exists t. split; [done|]. split; [done|by left].
Qed.

(** ** The passive-range check *)

Lemma check_space_heater_scan self t s :
  tile_of self s = Some t →
  Cat_check_space_heater self s =
    if heater_in_range t s then distract self 1 s else Ok s.
Proof.
  intros Ht. unfold Cat_check_space_heater, heater_in_range, scan_order.
  rewrite Ht. cbv zeta.
  assert (Hnone : heater_at None s = false) by done.
  assert (Hx : ∀ l, existsb (λ t', heater_at (Some t') s) (omap id l)
                    = existsb (λ o, heater_at o s) l).
  { induction l as [|[x|] l IH]; [done| |]; cbn [omap list_omap existsb id];
      [by rewrite IH|exact IH]. }
  rewrite Hx. cbn [existsb app].
  destruct (heater_at (walk entrance 1 (Some t)) s); [done|].
  destruct (heater_at (walk entrance 2 (Some t)) s); [done|].
  destruct (heater_at (walk exit 1 (Some t)) s); [done|].
  destruct (heater_at (walk exit 2 (Some t)) s); [done|].
  destruct (above t) as [ta|], (below (lane_count s) t) as [tb|];
    cbn [existsb app];
    repeat (match goal with
            | |- context [heater_at ?o s] => generalize (heater_at o s); intros []
            end);
    reflexivity.
Qed.

Lemma scan_order_range lanes t t' :
  on_board lanes t → (t' ∈ scan_order lanes t ↔ in_heater_range lanes t t').
Proof.
  destruct t as [r c], t' as [r' c']. intros [Hr Hc].
  unfold in_heater_range, on_board, LANE_WIDTH in *. simpl in *.
  assert (Hpair : ∀ a b : nat, (r', c') = (a, b) ↔ r' = a ∧ c' = b).
  { intros a b. split; [by intros [= -> ->]|by intros [-> ->]]. }
  do 8 (destruct c as [|c]; [
    unfold scan_order, above, below, entrance, exit, walk, LANE_WIDTH; simpl;
    destruct r as [|r]; simpl; repeat case_decide; simpl;
    rewrite ?elem_of_cons, ?elem_of_nil, ?Hpair; simpl in *;
    (split; intros Hx; decompose [or and] Hx; clear Hx; subst; try done; lia) |]).
  lia.
Qed.

Lemma heater_in_range_true t s :
  on_board (lane_count s) t →
  (heater_in_range t s = true
   ↔ ∃ t', in_heater_range (lane_count s) t t' ∧ heater_at (Some t') s = true).
Proof.
  intros Hb. unfold heater_in_range. rewrite existsb_exists.
  split; intros (t' & Hin & Hh); exists t'; split; try done.
  - by apply scan_order_range, list_elem_of_In.
  - by apply list_elem_of_In, scan_order_range.
Qed.

(** C6. After a move has put the cat on tile [t], the passive-range check
    looks at the tiles of [scan_order] in that order, which are exactly the
    tiles of the own lane at column offsets 1 and 2 on either side and of the
    two adjacent lanes at column offsets -1, 0 and 1.  When a SpaceHeater
    stands on at least one of them the check is one single [distract(1)],
    however many heaters there are and whichever comes first, and the
    attention of the cat drops by exactly 1; when none does, nothing
    changes. *)
Theorem check_space_heater_one_hit (self : nat) (c : Cat) (t : Tile) (s : Game) :
  instance s = true → cat_at self c t s → on_board (lane_count s) t →
  (1 ≤ attention c)%Z →
  (∀ t', t' ∈ scan_order (lane_count s) t ↔ in_heater_range (lane_count s) t t')
  ∧ Cat_check_space_heater self s
    = (if heater_in_range t s then distract self 1 s else Ok s)
  ∧ ((∃ t', in_heater_range (lane_count s) t t' ∧ heater_at (Some t') s = true) →
     Cat_check_space_heater self s = distract self 1 s
     ∧ ∃ s', Cat_check_space_heater self s = Ok s'
             ∧ attention_of self s' = Some (attention c - 1)%Z)
  ∧ ((∀ t', in_heater_range (lane_count s) t t' → heater_at (Some t') s = false) →
     Cat_check_space_heater self s = Ok s).
Proof.
  intros Hi Hat Hb Hpos.
  pose proof (check_space_heater_scan self t s (tile_of_lookup _ _ _ (proj1 Hat))) as Hscan.
  split; [intros t'; by apply scan_order_range|].
  split; [done|]. split.
  - intros Hex. apply heater_in_range_true in Hex; [|done].
    rewrite Hscan, Hex. split; [done|].
    destruct (distract_on_board self c t 1 s Hi Hat) as (s' & Hd & Hc & _); [lia|].
    exists s'. split; [done|]. unfold attention_of. rewrite Hc. simpl.
    unfold distracted. case_bool_decide; simpl; f_equal; lia.
  - intros Hall. rewrite Hscan.
    destruct (heater_in_range t s) eqn:E; [|done].
    apply heater_in_range_true in E as (t' & Hin & Hh); [|done].
    by rewrite (Hall t' Hin) in Hh.
Qed.

(** ** Scanning contraptions *)

Lemma entrance_chain_unfold t :
  entrance_chain t =
    match entrance t with
    | Some t' => t' :: entrance_chain t'
    | None => []
    end.
Proof.
  destruct t as [r c]. unfold entrance_chain, entrance, LANE_WIDTH.
  cbn [fst snd]. case_decide as H.
  - destruct (8 - S c) as [|n] eqn:E; [lia|].
    cbn [fst snd seq fmap list_fmap]. repeat f_equal. lia.
  - destruct (8 - S c) as [|n] eqn:E; [done|lia].
Qed.



(** The loop passes over every tile without a cat and distracts the cat of
    the first tile that has one. *)
Lemma scan_first_cat before t_cat after cat s :
  (∀ t', t' ∈ before → no_cat_at t' s) →
  actor t_cat s = Some cat → is_cat cat s = true →
  scan (before ++ t_cat :: after) s = distract cat 1 s.
Proof.
  intros Hbefore Hactor Hcat. induction before as [|t0 before IH]; simpl.
  - by rewrite Hactor, Hcat.
  - assert (no_cat_at t0 s) as H0 by (apply Hbefore; left).
    unfold no_cat_at in H0. destruct (actor t0 s) as [a|] eqn:Ea.
    + rewrite (H0 a eq_refl). apply IH. intros t' Ht'. apply Hbefore. by right.
    + apply IH. intros t' Ht'. apply Hbefore. by right.
Qed.







(** ** One move of a cat *)

Lemma exit_ne t next_spot : exit t = Some next_spot → next_spot ≠ t.
Proof.
  destruct t as [r c]. unfold exit. simpl. destruct c; [done|].
  intros [= <-] [=]. lia.
Qed.

Lemma lose_game_ok s :
  instance s = true →
  (manager >> lose_game) s = Ok (with_destroyed (with_stdout "You lose!" s)).
Proof.
  intros Hi. rewrite (seq_cmd_ok manager _ s _ (manager_ok _ Hi)).
  unfold lose_game, destroy, seq_cmd, pure, py_assert. simpl. by rewrite Hi.
Qed.

(** Stepping onto [next_spot], which is empty by now: the old tile is left
    and the two links point at each other again. *)
Lemma step_forward self c t next_spot s :
  instance s = true → cat_at self c t s → next_spot ≠ t →
  tile_actor s !! next_spot = None →
  ∃ s1, teleport self next_spot s = Ok s1
        ∧ tile_actor s1 = <[next_spot := self]> (delete t (tile_actor s))
        ∧ cat_at self c next_spot s1
        ∧ same_manager s s1
        ∧ (∀ a, a ≠ self → heap s1 !! a = heap s !! a).
Proof.
  intros Hi [Hh Ht] Hne Hempty.
  rewrite (teleport_on_board self t next_spot self s); try done.
  - eexists. split; [done|]. simpl. split; [done|]. split; [split; simpl|].
    + by rewrite lookup_alter_eq, Hh.
    + by rewrite lookup_insert_eq.
    + split; [by repeat split|]. intros a Ha. by rewrite lookup_alter_ne.
  - by rewrite (tile_of_lookup _ _ _ Hh).
  - by rewrite lookup_delete_ne.
Qed.

Lemma manager_inv s s' : manager s = Ok s' → s' = s ∧ instance s = true.
Proof. unfold manager, py_assert. destruct (instance s); [|done]. by intros [= <-]. Qed.

Lemma clear_actor_inv t s s' :
  clear_actor t s = Ok s' → s' = with_tile_actor (delete t) s ∧ instance s = true.
Proof.
  unfold clear_actor, seq_cmd, py_assert, pure.
  destruct (negb (is_empty t s)); [|done].
  intros [-> Hi]%manager_inv. by split.
Qed.

Lemma Contraption_interact_heap other s s' :
  Contraption_interact other s = Ok s' →
  heap s' = alter (λ o, mkActor (body o) None) other (heap s).
Proof.
  unfold Contraption_interact. destruct (tile_of other s) as [t|]; [|done].
  unfold seq_cmd. destruct (clear_actor t s) as [s1|] eqn:E1; [|done].
  apply clear_actor_inv in E1 as [-> Hi]. unfold pure.
  destruct (manager _) as [s2|] eqn:E2; [|done].
  apply manager_inv in E2 as [-> _]. unfold remove_contraption.
  destruct (list_remove _ _); [|done]. by intros [= <-].
Qed.

Lemma interact_heap_other other self s s' :
  other ≠ self → interact other s = Ok s' → heap s' !! self = heap s !! self.
Proof.
  intros Hne. unfold interact.
  destruct (get_contraption other s) as [d|]; [|done].
  assert (Hbase : Contraption_interact other s = Ok s' → heap s' !! self = heap s !! self).
  { intros H%Contraption_interact_heap. by rewrite H, lookup_alter_ne. }
  destruct d; try done.
  unfold SnackDispenser_interact, seq_cmd, pure.
  case_bool_decide.
  - intros Hk%Contraption_interact_heap. rewrite Hk. simpl.
    by rewrite !lookup_alter_ne.
  - intros [= <-]. simpl. by rewrite lookup_alter_ne.
Qed.

(** C2. One move of a cat that is on the board, by what lies ahead.
    No tile ahead: the loss is signalled and the cat stays where it is.
    A ColorfulBall ahead: the ball is taken off the tile, the cat moves onto
    the tile and is distracted by 1, after which the passive-range check
    runs.  An empty tile ahead: the cat moves onto it, after which the
    passive-range check runs.  A contraption ahead: the move is exactly that
    contraption's [interact], and the cat keeps its tile and its fields.
    Another cat ahead: nothing changes. *)
Theorem Cat_move_priorities (self : nat) (c : Cat) (t : Tile) (s : Game) :
  instance s = true → cat_at self c t s → (1 ≤ attention c)%Z →
  (exit t = None →
     ∃ s', Cat_move self s = Ok s'
           ∧ game_ended s' = true
           ∧ stdout s' = stdout s ++ ["You lose!"]
           ∧ heap s' = heap s ∧ tile_actor s' = tile_actor s)
  ∧ (∀ next_spot, exit t = Some next_spot →
       (∀ ball, actor next_spot s = Some ball → body_of ball s = Some AColorfulBall →
          ∃ s1 s2,
            (clear_actor next_spot >> teleport self next_spot) s = Ok s1
            ∧ tile_actor s1 = <[next_spot := self]> (delete t (tile_actor s))
            ∧ cat_at self c next_spot s1
            ∧ distract self 1 s1 = Ok s2
            ∧ attention_of self s2 = Some (attention c - 1)%Z
            ∧ Cat_move self s = Cat_check_space_heater self s2)
       ∧ (actor next_spot s = None →
          ∃ s1,
            teleport self next_spot s = Ok s1
            ∧ tile_actor s1 = <[next_spot := self]> (delete t (tile_actor s))
            ∧ cat_at self c next_spot s1
            ∧ Cat_move self s = Cat_check_space_heater self s1)
       ∧ (∀ other d, actor next_spot s = Some other →
          body_of other s = Some (AContraption d) →
          Cat_move self s = interact other s
          ∧ ∀ s', interact other s = Ok s' →
                  heap s' !! self = Some (mkActor (ACat c) (Some t)))
       ∧ (∀ other c', actor next_spot s = Some other →
          body_of other s = Some (ACat c') →
          Cat_move self s = Ok s)).
Proof.
  intros Hi Hat Hpos. pose proof Hat as [Hh Ht].
  pose proof (tile_of_lookup _ _ _ Hh) as Htile. simpl in Htile.
  split.
  - intros Hexit. unfold Cat_move. rewrite Htile, Hexit, lose_game_ok by done.
    eexists. by repeat split.
  - intros next_spot Hexit. pose proof (exit_ne _ _ Hexit) as Hne.
    unfold Cat_move. rewrite Htile, Hexit.
    split; [|split; [|split]].
    + intros ball Hball Hbody. rewrite Hball, Hbody.
      pose proof (clear_actor_ok next_spot ball s Hi Hball) as Hclear.
      destruct (step_forward self c t next_spot (with_tile_actor (delete next_spot) s))
        as (s1 & Hs1 & Hocc & Hat1 & Hsame & _); try done.
      { split; [done|]. simpl. by rewrite lookup_delete_ne. }
      { simpl. by rewrite lookup_delete_eq. }
      assert (instance s1 = true) as Hi1.
      { destruct Hsame as (_ & _ & _ & _ & _ & _ & _ & -> & _). done. }
      destruct (distract_on_board self c next_spot 1 s1 Hi1 Hat1) as (s2 & Hd & Hc & _);
        [lia|].
      exists s1, s2.
      split; [by rewrite (seq_cmd_ok _ _ _ _ Hclear)|].
      split.
      { rewrite Hocc. simpl.
        rewrite (delete_delete _ t next_spot). by rewrite insert_delete_eq. }
      split; [done|]. split; [done|]. split.
      { unfold attention_of. rewrite Hc. simpl.
        unfold distracted. case_bool_decide; simpl; f_equal; lia. }
      rewrite <- !seq_cmd_assoc.
      rewrite (seq_cmd_ok _ _ _ _ Hclear).
      rewrite (seq_cmd_ok _ _ _ _ Hs1).
      by rewrite (seq_cmd_ok _ _ _ _ Hd).
    + intros Hempty. rewrite Hempty.
      destruct (step_forward self c t next_spot s) as (s1 & Hs1 & Hocc & Hat1 & _);
        try done.
      exists s1. repeat split; try done; try apply Hat1.
      by rewrite (seq_cmd_ok _ _ _ _ Hs1).
    + intros other d Hother Hbody. rewrite Hother, Hbody. split; [done|].
      intros s' Hint. rewrite <- Hh. apply (interact_heap_other other); [|done].
      intros ->. unfold body_of in Hbody. by rewrite Hh in Hbody.
    + intros other c' Hother Hbody. by rewrite Hother, Hbody.
Qed.

(** ** The registries during the pass over the contraptions *)

Lemma keeps_seq f g :
  keeps_registries f → keeps_registries g → keeps_registries (f >> g).
Proof.
  intros Hf Hg s s'. unfold seq_cmd. destruct (f s) as [s1|] eqn:E; [|done].
  intros H. destruct (Hf _ _ E) as [H1 H2], (Hg _ _ H) as [H3 H4].
  split; congruence.
Qed.

Lemma keeps_Ok : keeps_registries Ok.
Proof. by intros s s' [= ->]. Qed.

Lemma keeps_assert b : keeps_registries (py_assert b).
Proof. intros s s'. unfold py_assert. destruct b; [|done]. by intros [= ->]. Qed.

Lemma keeps_manager : keeps_registries manager.
Proof. intros s s' [-> _]%manager_inv. done. Qed.

Lemma keeps_pure f :
  (∀ s, contraptions (f s) = contraptions s ∧ cats (f s) = cats s) →
  keeps_registries (pure f).
Proof. intros H s s' [= <-]. apply H. Qed.

(** A command chosen by looking at the state keeps the registries when every
    command it can choose does. *)
Lemma keeps_choice (f : Game → Game → Res) :
  (∀ s0, keeps_registries (f s0)) → keeps_registries (λ s, f s s).
Proof. intros H s s'. apply H. Qed.

Lemma keeps_clear_actor t : keeps_registries (clear_actor t).
Proof. intros s s' [-> _]%clear_actor_inv. done. Qed.

Lemma keeps_set_actor t a : keeps_registries (set_actor t a).
Proof.
  apply (keeps_choice (λ s0, py_assert (is_empty t s0) >> pure (with_tile_actor <[t:=a]>))).
  intros s0. apply keeps_seq; [apply keeps_assert|by apply keeps_pure].
Qed.

Lemma keeps_teleport a t : keeps_registries (teleport a t).
Proof.
  apply (keeps_choice (λ s0, (match tile_of a s0 with
                              | Some t0 => clear_actor t0
                              | None => Ok
                              end) >> pure (set_tile a (Some t)) >> set_actor t a)).
  intros s0. apply keeps_seq; [apply keeps_seq|].
  - destruct (tile_of a s0); [apply keeps_clear_actor|apply keeps_Ok].
  - by apply keeps_pure.
  - apply keeps_set_actor.
Qed.

Lemma keeps_remove_from_board a : keeps_registries (remove_from_board a).
Proof.
  intros s s'. unfold remove_from_board. destruct (tile_of a s) as [t|]; [|done].
  apply keeps_seq; [apply keeps_clear_actor|by apply keeps_pure].
Qed.

Lemma keeps_Cat_distract self amount : keeps_registries (Cat_distract self amount).
Proof.
  intros s s'. unfold Cat_distract. destruct (get_cat self s) as [c|]; [|done].
  case_bool_decide; [|done]. case_bool_decide.
  - intros Hx. by apply keeps_remove_from_board in Hx.
  - by intros [= <-].
Qed.

Lemma keeps_distract self amount : keeps_registries (distract self amount).
Proof.
  intros s s'. unfold distract. destruct (get_cat self s) as [c|]; [|done].
  destruct (cat_class c); try apply keeps_Cat_distract.
  unfold Calico_distract. apply keeps_seq; [apply keeps_Cat_distract|].
  intros s1 s2. destruct (tile_of self s1) as [t|]; [|by intros [= ->]].
  destruct (above t) as [ta|]; [|by intros [= ->]].
  destruct (is_empty ta s1); [apply keeps_teleport|by intros [= ->]].
Qed.

Lemma keeps_scan chain : keeps_registries (scan chain).
Proof.
  induction chain as [|t chain IH]; intros s s'; simpl; [by intros [= ->]|].
  destruct (actor t s) as [a|]; [|apply IH].
  destruct (is_cat a s); [apply keeps_distract|apply IH].
Qed.

Lemma keeps_new_actor b : keeps_registries (new_actor b).
Proof. apply keeps_seq; [apply keeps_manager|by apply keeps_pure]. Qed.

Lemma keeps_contraption_end_round self : keeps_registries (contraption_end_round self).
Proof.
  intros s s'. unfold contraption_end_round.
  destruct (get_contraption self s) as [d|]; [|done].
  destruct d; try (by intros [= ->]).
  - unfold LaserPointer_end_round. destruct (tile_of self s); [apply keeps_scan|done].
  - unfold BatteryCharger_end_round. apply keeps_seq; [|by apply keeps_pure].
    destruct ready; [|apply keeps_Ok].
    apply keeps_seq; [apply keeps_seq; [apply keeps_seq|]|];
      try apply keeps_manager.
    + by intros s1 s2 [= <-].
    + intros s1 s2. apply keeps_assert.
  - unfold BallThrower_end_round. destruct (tile_of self s); [apply keeps_scan|done].
  - unfold TripleLaserPointer_end_round. apply keeps_seq; [apply keeps_seq|].
    + intros s1 s2. destruct (tile_of self s1); [apply keeps_scan|done].
    + intros s1 s2. destruct (tile_of self s1) as [t|]; [|done].
      destruct (above t); [apply keeps_scan|apply keeps_Ok].
    + intros s1 s2. destruct (tile_of self s1) as [t|]; [|done].
      destruct (below (lane_count s1) t); [apply keeps_scan|apply keeps_Ok].
  - unfold ColorfulBallThrower_end_round. destruct (tile_of self s) as [t|]; [|done].
    destruct (found_cat _ s); [apply keeps_scan|].
    destruct (last_empty _ s); [|by intros [= ->]].
    apply keeps_seq; [apply keeps_new_actor|apply keeps_teleport].
Qed.

Lemma keeps_add_batteries amount : keeps_registries (add_batteries amount).
Proof.
  apply (keeps_choice (λ s0, py_assert (bool_decide (0 ≤ amount)%Z)
                             >> pure (with_batteries (batteries s0 + amount))
                             >> update_battery_text)).
  intros s0. apply keeps_seq; [apply keeps_seq|].
  - apply keeps_assert.
  - by apply keeps_pure.
  - intros s1 s2. apply keeps_assert.
Qed.

(** ** The round *)

Lemma for_cats_steps draws l s :
  for_cats draws l increment_round s
  = run_steps draws ((UnitEnd <$> l) ++ [Bookkeeping]) s.
Proof.
  revert s. induction l as [|c l IH]; intros s; simpl.
  - by destruct (increment_round s).
  - destruct (cat_end_round c (draws c) s) as [s'|]; [|done].
    destruct (game_ended s'); [done|apply IH].
Qed.

Lemma for_contraptions_steps draws (after : Game → Res) (rest : list Step) l :
  ∀ before s,
    contraptions s = before ++ l →
    (∀ s', contraptions s' = contraptions s → cats s' = cats s →
           after s' = run_steps draws rest s') →
    (for_contraptions (length l) (length before) >> after) s
    = run_steps draws ((DeviceEnd <$> l) ++ rest) s.
Proof.
  induction l as [|d l IH]; intros before s Hreg Hafter.
  - simpl. unfold seq_cmd. simpl. by apply Hafter.
  - simpl. unfold seq_cmd at 1.
    assert (contraptions s !! length before = Some d) as ->.
    { rewrite Hreg. by rewrite list_lookup_middle. }
    unfold seq_cmd at 1.
    destruct (contraption_end_round d s) as [s1|] eqn:E; [|done].
    destruct (keeps_contraption_end_round _ _ _ E) as [Hc1 Hc2].
    specialize (IH (before ++ [d]) s1).
    rewrite length_app in IH. simpl in IH.
    replace (length before + 1) with (S (length before)) in IH by lia.
    unfold seq_cmd in IH. rewrite IH; [done| |].
    + by rewrite Hc1, Hreg, <- app_assoc.
    + intros s' H1 H2. apply Hafter; congruence.
Qed.

Lemma end_round_steps draws s :
  end_round draws s = run_steps draws (round_steps s) s.
Proof.
  unfold end_round, round_steps. rewrite <- seq_cmd_assoc.
  unfold seq_cmd at 1. simpl.
  destruct (add_batteries 1 s) as [s1|] eqn:E; [|done].
  destruct (keeps_add_batteries _ _ _ E) as [Hc1 Hc2].
  rewrite <- Hc1, <- Hc2.
  pose proof (for_contraptions_steps draws
    (λ s0, for_cats draws (cats s0) increment_round s0)
    ((UnitEnd <$> cats s1) ++ [Bookkeeping]) (contraptions s1) [] s1 eq_refl) as H.
  simpl in H. unfold seq_cmd in *. apply H.
  intros s' _ ->. apply for_cats_steps.
Qed.

Lemma increment_round_active s :
  instance s = true → game_ended s = false → (0 ≤ rounds s)%Z →
  ∃ s', increment_round s = Ok s'
        ∧ rounds s' = (rounds s + 1)%Z
        ∧ (game_ended s' = true ↔ (WIN_ROUND ≤ rounds s + 1)%Z)
        ∧ (game_ended s' = true → stdout s' = stdout s ++ ["You win!"])
        ∧ (game_ended s' = false → s' = with_rounds (rounds s + 1) s).
Proof.
  intros Hi He Hr. unfold increment_round, update_round_text, seq_cmd, pure, py_assert.
  simpl. rewrite bool_decide_true by lia.
  case_bool_decide as Hw.
  - unfold win_game, destroy, seq_cmd, pure, py_assert. simpl. rewrite Hi.
    eexists. split; [done|]. simpl. repeat split; try done.
  - eexists. split; [done|]. simpl. rewrite He. repeat split; done.
Qed.

(** C1. A round makes its calls in one fixed order: the grant of one battery,
    the end of round of every registered contraption in registration order,
    the end of round of every cat in creation order, stopping after a cat
    that has ended the game, and last the round counter.  The grant adds
    exactly 1.  The counter, reached only while the game is still active,
    goes up by exactly 1 and the game is won exactly when it reaches
    [WIN_ROUND] = 40. *)
Theorem end_round_order (draws : nat → nat) (s : Game) :
  (0 ≤ batteries s)%Z →
  end_round draws s = run_steps draws (round_steps s) s
  ∧ (∃ s1, run_step draws Grant s = Ok s1
           ∧ batteries s1 = (batteries s + 1)%Z
           ∧ round_steps s1 = round_steps s)
  ∧ (∀ s3, instance s3 = true → game_ended s3 = false →
           (0 ≤ rounds s3 < WIN_ROUND)%Z →
           ∃ s4, run_step draws Bookkeeping s3 = Ok s4
                 ∧ rounds s4 = (rounds s3 + 1)%Z
                 ∧ (game_ended s4 = true ↔ rounds s4 = 40%Z)
                 ∧ (game_ended s4 = true → stdout s4 = stdout s3 ++ ["You win!"])).
Proof.
  intros Hb. split; [apply end_round_steps|]. split.
  - exists (with_batteries (batteries s + 1) s). simpl.
    by rewrite add_batteries_ok by lia.
  - intros s3 Hi He [Hr Hlt]. simpl.
    destruct (increment_round_active s3 Hi He Hr) as (s4 & Hrun & Hr4 & Hwin & Hout & _).
    exists s4. repeat split; try done.
    + intros Hx. apply Hwin in Hx. unfold WIN_ROUND in *. lia.
    + intros Hx. apply Hwin. unfold WIN_ROUND. lia.
Qed.

(** ** What the engine does where the specification is not met *)

(** C3, at the failing input.  A Kitten that starts the round on the last
    tile of its lane signals the loss with its first move; it is still on
    the board, so [Kitten.end_round] moves it a second time, and that move
    asks for the manager that the loss has already destroyed.  The round ends
    in an [AssertionError].  The same cat handled by [Cat.end_round], which
    moves once, ends the round in the lost game. *)
Lemma Kitten_end_round_after_loss :
  cat_at 0 (mkCat Kitten 3 2 6 0) (0, 0) kitten_at_goal
  ∧ exit (0, 0) = None
  ∧ instance kitten_at_goal = true ∧ game_ended kitten_at_goal = false
  ∧ cat_end_round 0 0 kitten_at_goal
    = Raise AssertionError (with_destroyed (with_stdout "You lose!" kitten_at_goal))
  ∧ end_round first_lane kitten_at_goal
    = Raise AssertionError
        (with_destroyed (with_stdout "You lose!"
           (with_batteries (batteries kitten_at_goal + 1) kitten_at_goal)))
  ∧ Cat_end_round 0 0 kitten_at_goal
    = Ok (with_destroyed (with_stdout "You lose!" kitten_at_goal)).
Proof. unfold cat_at. split_and!; vm_compute; reflexivity. Qed.

(** The Tabby steps onto the ball of (0,3).  The move clears the tile but
    not the [_tile] field of the ball. *)
Lemma pickup_leaves_ball_reporting_tile :
  cat_at 0 (mkCat Tabby 4 4 4 0) (0, 4) tabby_before_ball
  ∧ heap tabby_before_ball !! 2 = Some (mkActor AColorfulBall (Some (0, 3)))
  ∧ actor (0, 3) tabby_before_ball = Some 2
  ∧ Cat_move 0 tabby_before_ball = Ok (state_of (Cat_move 0 tabby_before_ball))
  ∧ actor (0, 3) (state_of (Cat_move 0 tabby_before_ball)) = Some 0
  ∧ tile_of 0 (state_of (Cat_move 0 tabby_before_ball)) = Some (0, 3)
  ∧ tile_of 2 (state_of (Cat_move 0 tabby_before_ball)) = Some (0, 3)
  ∧ is_on_board 2 (state_of (Cat_move 0 tabby_before_ball)) = true.
Proof. unfold cat_at. split_and!; vm_compute; reflexivity. Qed.

(** C4, at the failing input.  Before the Tabby steps onto the ball of
    (0,3) every occupant points back at its tile; after the move the ball
    object and the cat both report (0,3), which the cat occupies: two actors
    report the same tile. *)
Lemma pickup_breaks_no_shared_tile :
  ¬ no_shared_tile (state_of (Cat_move 0 tabby_before_ball)).
Proof.
  intros Hinv.
  destruct pickup_leaves_ball_reporting_tile as (_ & _ & _ & _ & _ & H0 & H2 & _).
  discriminate (Hinv 0 2 (0, 3) H0 H2).
Qed.

(** C5, at the failing input.  [Tabby(0)] passes the assertions of the
    constructor.  The cat is off the board with rest time 0, and every round
    takes its rest time further below 0: it never enters the board. *)
Lemma Tabby_zero_rest_time :
  new_cat Tabby 0 = Some (mkCat Tabby 4 0 4 0)
  ∧ get_cat 0 tabby_rest_zero = Some (mkCat Tabby 4 0 4 0)
  ∧ is_on_board 0 tabby_rest_zero = false
  ∧ ¬ cat_invariant (mkCat Tabby 4 0 4 0) false
  ∧ end_round first_lane tabby_rest_zero
    = Ok (state_of (end_round first_lane tabby_rest_zero))
  ∧ get_cat 0 (state_of (end_round first_lane tabby_rest_zero))
    = Some (mkCat Tabby 4 0 4 (-1))
  ∧ is_on_board 0 (state_of (end_round first_lane tabby_rest_zero)) = false
  ∧ ¬ cat_invariant (mkCat Tabby 4 0 4 (-1)) false.
Proof.
  split_and!; try (vm_compute; reflexivity).
  - intros [_ [Hzero _]]. by specialize (Hzero eq_refl).
  - intros [[[? _]|(_ & Hrest & _)] _]; [done|]. simpl in Hrest. lia.
Qed.

(** C7, at the failing input.  In the fourth round the thrower takes the
    Kitten down to 1 attention, the Kitten steps onto the ball of (0,2), the
    distraction of the pickup removes it from the board, and the
    passive-range check that follows reads [self._tile.above()] on a cat
    whose tile is [None]: the round ends in an [AttributeError]. *)
Lemma pickup_to_zero_raises :
  cat_at 0 (mkCat Kitten 3 2 6 0) (0, 3) kitten_among_balls
  ∧ actor (0, 2) kitten_among_balls = Some 3
  ∧ body_of 3 kitten_among_balls = Some AColorfulBall
  ∧ end_round first_lane kitten_among_balls
    = Raise AttributeError (state_of (end_round first_lane kitten_among_balls))
  ∧ get_cat 0 (state_of (end_round first_lane kitten_among_balls))
    = Some (mkCat Kitten 3 0 6 6)
  ∧ tile_of 0 (state_of (end_round first_lane kitten_among_balls)) = None
  ∧ rounds (state_of (end_round first_lane kitten_among_balls)) = rounds kitten_among_balls.
Proof. unfold cat_at. split_and!; vm_compute; reflexivity. Qed.

(** ** The theorems at concrete games *)

Lemma end_round_order_witness :
  end_round first_lane laser_behind_snack
  = run_steps first_lane (round_steps laser_behind_snack) laser_behind_snack.
Proof.
  assert (0 ≤ batteries laser_behind_snack)%Z as Hb by (by vm_compute).
  exact (proj1 (end_round_order first_lane laser_behind_snack Hb)).
Defined.

Lemma Cat_move_priorities_witness :
  ∃ s1 s2,
    (clear_actor (0, 3) >> teleport 0 (0, 3)) tabby_before_ball = Ok s1
    ∧ cat_at 0 (mkCat Tabby 4 4 4 0) (0, 3) s1
    ∧ distract 0 1 s1 = Ok s2
    ∧ attention_of 0 s2 = Some (4 - 1)%Z
    ∧ Cat_move 0 tabby_before_ball = Cat_check_space_heater 0 s2.
Proof.
  assert (instance tabby_before_ball = true) as Hi by (vm_compute; reflexivity).
  assert (cat_at 0 (mkCat Tabby 4 4 4 0) (0, 4) tabby_before_ball) as Hat
    by (split; vm_compute; reflexivity).
  assert (1 ≤ attention (mkCat Tabby 4 4 4 0))%Z as Hpos by (by vm_compute).
  destruct (Cat_move_priorities 0 _ (0, 4) tabby_before_ball Hi Hat Hpos) as [_ Hahead].
  destruct (Hahead (0, 3) eq_refl) as (Hball & _).
  assert (actor (0, 3) tabby_before_ball = Some 2) as Hocc by (vm_compute; reflexivity).
  assert (body_of 2 tabby_before_ball = Some AColorfulBall) as Hbody
    by (vm_compute; reflexivity).
  destruct (Hball 2 Hocc Hbody) as (s1 & s2 & H1 & _ & H2 & H3 & H4 & H5).
  exists s1, s2. split_and!; assumption.
Defined.

Lemma check_space_heater_one_hit_witness :
  ∃ s', Cat_check_space_heater 0 tabby_near_heater = Ok s'
        ∧ attention_of 0 s' = Some (3 - 1)%Z.
Proof.
  assert (instance tabby_near_heater = true) as Hi by (vm_compute; reflexivity).
  assert (cat_at 0 (mkCat Tabby 4 3 4 0) (0, 6) tabby_near_heater) as Hat
    by (split; vm_compute; reflexivity).
  assert (lane_count tabby_near_heater = 1) as Hl by (vm_compute; reflexivity).
  assert (on_board (lane_count tabby_near_heater) (0, 6)) as Hb.
  { rewrite Hl. unfold on_board, LANE_WIDTH. simpl. lia. }
  assert (1 ≤ attention (mkCat Tabby 4 3 4 0))%Z as Hpos by (by vm_compute).
  destruct (check_space_heater_one_hit 0 _ (0, 6) tabby_near_heater Hi Hat Hb Hpos)
    as (_ & _ & Hhit & _).
  destruct Hhit as (_ & s' & Hrun & Hatt).
  - exists (0, 4). split.
    + rewrite Hl. unfold in_heater_range, on_board, LANE_WIDTH. simpl. lia.
    + vm_compute. reflexivity.
  - exists s'. split; assumption.
Defined.

Lemma Tile_clicked_placement_witness :
  ∃ s', Tile_clicked (0, 6) snack_selected = Ok s'
        ∧ batteries s' = (batteries snack_selected - cost (construct KSnackDispenser))%Z
        ∧ contraptions s' = contraptions snack_selected ++ [next_id snack_selected].
Proof.
  assert (instance snack_selected = true) as Hi by (vm_compute; reflexivity).
  assert (lane_count snack_selected = 1) as Hl by (vm_compute; reflexivity).
  assert (on_board (lane_count snack_selected) (0, 6)) as Hb.
  { rewrite Hl. unfold on_board, LANE_WIDTH. simpl. lia. }
  destruct (Tile_clicked_placement (0, 6) snack_selected Hi Hb) as [_ Hsel].
  assert (current_selector snack_selected = Some KSnackDispenser) as Hk
    by (vm_compute; reflexivity).
  destruct (Hsel KSnackDispenser Hk) as [_ Hbuild].
  destruct Hbuild as (s' & Hrun & Hbat & _ & Hreg & _).
  - split_and!.
    + intros [=].
    + vm_compute. reflexivity.
    + by vm_compute.
  - exists s'. split_and!; assumption.
Defined.

Lemma SnackDispenser_five_interactions_witness :
  ∃ s', (new_actor (AContraption (construct KSnackDispenser))
         >> Contraption_place (next_id snack_selected) (0, 6)
         >> repeat_cmd 5 (interact (next_id snack_selected))) snack_selected = Ok s'
        ∧ length (contraptions s') = 0.
Proof.
  assert (instance snack_selected = true) as Hi by (vm_compute; reflexivity).
  assert (tile_actor snack_selected !! (0, 6) = None) as He by (vm_compute; reflexivity).
  assert (contraptions snack_selected = []) as Hreg by (vm_compute; reflexivity).
  assert (next_id snack_selected ∉ contraptions snack_selected) as Hfresh.
  { rewrite Hreg. apply not_elem_of_nil. }
  destruct (SnackDispenser_five_interactions snack_selected (0, 6) Hi He Hfresh)
    as (_ & _ & Hcount).
  exact (Hcount Hreg).
Defined.

(** * Further properties of the engine *)

(** ** What a command that returns has done *)

Lemma py_assert_inv b s s' : py_assert b s = Ok s' → b = true ∧ s' = s.
Proof. unfold py_assert. destruct b; [|done]. by intros [= <-]. Qed.

Lemma seq_cmd_inv f g s s' :
  (f >> g) s = Ok s' → ∃ s1, f s = Ok s1 ∧ g s1 = Ok s'.
Proof. unfold seq_cmd. destruct (f s) as [s1|]; [|done]. intros H. by exists s1. Qed.

Lemma set_actor_inv t a s s' :
  set_actor t a s = Ok s' →
  tile_actor s !! t = None ∧ s' = with_tile_actor <[t:=a]> s.
Proof.
  unfold set_actor. intros (s1 & [He ->]%py_assert_inv & [= <-])%seq_cmd_inv.
  split; [|done]. unfold is_empty in He. by apply bool_decide_eq_true in He.
Qed.

Lemma clear_actor_occupied t s s' :
  clear_actor t s = Ok s' → is_Some (tile_actor s !! t).
Proof.
  unfold clear_actor.
  intros (s1 & (s2 & [He ->]%py_assert_inv & _)%seq_cmd_inv & _)%seq_cmd_inv.
  unfold is_empty in He. apply negb_true_iff, bool_decide_eq_false in He.
  destruct (tile_actor s !! t); [by eexists|done].
Qed.

Lemma teleport_inv a t s s' :
  teleport a t s = Ok s' →
  s' = with_tile_actor <[t:=a]> (set_tile a (Some t) (leave a s))
  ∧ tile_actor (leave a s) !! t = None
  ∧ (∀ t0, tile_of a s = Some t0 → is_Some (tile_actor s !! t0) ∧ instance s = true).
Proof.
  unfold teleport, leave.
  intros (s2 & (s1 & H1 & [= <-])%seq_cmd_inv & [He ->]%set_actor_inv)%seq_cmd_inv.
  destruct (tile_of a s) as [t0|] eqn:Et.
  - pose proof (clear_actor_occupied _ _ _ H1) as Hocc.
    apply clear_actor_inv in H1 as [-> Hi]. split; [done|]. split; [done|].
    by intros ? [= <-].
  - injection H1 as <-. split; [done|]. split; [done|]. done.
Qed.

Lemma remove_from_board_inv a s s' :
  remove_from_board a s = Ok s' →
  ∃ t0, tile_of a s = Some t0 ∧ is_Some (tile_actor s !! t0)
        ∧ s' = set_tile a None (with_tile_actor (delete t0) s).
Proof.
  unfold remove_from_board. destruct (tile_of a s) as [t0|]; [|done].
  intros (s1 & H1 & [= <-])%seq_cmd_inv. exists t0.
  pose proof (clear_actor_occupied _ _ _ H1) as Hocc.
  apply clear_actor_inv in H1 as [-> _]. done.
Qed.

(** ** Reading the store after an update *)

Lemma tile_of_set_tile a b o s :
  tile_of a (set_tile b o s)
  = if decide (b = a) then match heap s !! a with Some _ => o | None => None end else tile_of a s.
Proof.
  unfold tile_of, set_tile. simpl. case_decide as H.
  - subst. rewrite lookup_alter_eq. by destruct (heap s !! a).
  - by rewrite lookup_alter_ne.
Qed.

Lemma body_of_set_tile a b o s : body_of a (set_tile b o s) = body_of a s.
Proof.
  unfold body_of, set_tile. simpl. destruct (decide (b = a)) as [->|H].
  - rewrite lookup_alter_eq. by destruct (heap s !! a).
  - by rewrite lookup_alter_ne.
Qed.

Lemma tile_of_set_body a b x s : tile_of a (set_body b x s) = tile_of a s.
Proof.
  unfold tile_of, set_body. simpl. destruct (decide (b = a)) as [->|H].
  - rewrite lookup_alter_eq. by destruct (heap s !! a).
  - by rewrite lookup_alter_ne.
Qed.

Lemma body_of_set_body a b x s :
  body_of a (set_body b x s)
  = if decide (b = a) then match heap s !! a with Some _ => Some x | None => None end else body_of a s.
Proof.
  unfold body_of, set_body. simpl. case_decide as H.
  - subst. rewrite lookup_alter_eq. by destruct (heap s !! a).
  - by rewrite lookup_alter_ne.
Qed.

Lemma heap_set_tile_None a o s x : heap (set_tile a o s) !! x = None ↔ heap s !! x = None.
Proof.
  unfold set_tile. simpl. destruct (decide (a = x)) as [->|H].
  - rewrite lookup_alter_eq. by destruct (heap s !! x).
  - by rewrite lookup_alter_ne.
Qed.

Lemma heap_set_body_None a b s x : heap (set_body a b s) !! x = None ↔ heap s !! x = None.
Proof.
  unfold set_body. simpl. destruct (decide (a = x)) as [->|H].
  - rewrite lookup_alter_eq. by destruct (heap s !! x).
  - by rewrite lookup_alter_ne.
Qed.

Lemma tile_of_leave a b s : tile_of a (leave b s) = tile_of a s.
Proof. unfold leave. by destruct (tile_of b s). Qed.

Lemma body_of_leave a b s : body_of a (leave b s) = body_of a s.
Proof. unfold leave. by destruct (tile_of b s). Qed.

Lemma actor_leave t b s :
  actor t (leave b s) = if decide (tile_of b s = Some t) then None else actor t s.
Proof.
  unfold leave, actor. destruct (tile_of b s) as [t0|] eqn:E.
  - simpl. case_decide as H.
    + injection H as ->. by rewrite lookup_delete_eq.
    + rewrite lookup_delete_ne; [done|]. by intros ->.
  - by rewrite decide_False.
Qed.

(** ** The links between tiles and actors *)

(** An actor that is in the store and is not a ball with a stale tile moves
    onto a tile that is empty once it has left its own. *)
Lemma links_ok_arrive a t s :
  links_ok s → is_Some (heap s !! a) →
  (body_of a s ≠ Some AColorfulBall ∨ tile_of a s = None) →
  tile_actor (leave a s) !! t = None →
  links_ok (with_tile_actor <[t:=a]> (set_tile a (Some t) (leave a s))).
Proof.
  intros (Hback & Hown & Hfresh) [o Ho] Hball Hempty.
  assert (Hta : tile_of a (set_tile a (Some t) (leave a s)) = Some t).
  { rewrite tile_of_set_tile, decide_True by done.
    replace (heap (leave a s)) with (heap s) by (unfold leave; by destruct (tile_of a s)).
    by rewrite Ho. }
  assert (Hstale : ∀ b t1, b ≠ a → actor t1 s = Some b → tile_of a s ≠ Some t1).
  { intros b t1 Hne Hb Ha. destruct Hball as [Hball|Hoff]; [|congruence].
    specialize (Hown a t1 Ha Hball). congruence. }
  split; [|split].
  - intros t1 b. unfold actor. simpl. destruct (decide (t = t1)) as [->|Hne].
    + rewrite lookup_insert_eq. by intros [= <-].
    + rewrite lookup_insert_ne by done. intros Hb.
      change (actor t1 (leave a s) = Some b) in Hb. rewrite actor_leave in Hb.
      case_decide as Hat; [done|].
      pose proof (Hback _ _ Hb) as Htb.
      assert (b ≠ a) as Hba by (intros ->; congruence).
      change (tile_of b (set_tile a (Some t) (leave a s)) = Some t1).
      by rewrite tile_of_set_tile, decide_False, tile_of_leave.
  - intros b t1.
    change (tile_of b (set_tile a (Some t) (leave a s)) = Some t1 →
            body_of b (set_tile a (Some t) (leave a s)) ≠ Some AColorfulBall →
            (<[t:=a]> (tile_actor (leave a s))) !! t1 = Some b).
    rewrite tile_of_set_tile, body_of_set_tile, body_of_leave.
    destruct (decide (a = b)) as [->|Hne].
    + replace (heap (leave b s)) with (heap s) by (unfold leave; by destruct (tile_of b s)).
      rewrite Ho. intros [= <-] _. by rewrite lookup_insert_eq.
    + rewrite tile_of_leave. intros Htb Hbody.
      pose proof (Hown _ _ Htb Hbody) as Hocc.
      assert (tile_of a s ≠ Some t1) as Hat by (by eapply Hstale).
      assert (actor t1 (leave a s) = Some b) as Hocc'
        by (by rewrite actor_leave, decide_False).
      assert (t ≠ t1) as Htt by (intros ->; unfold actor in Hocc'; congruence).
      by rewrite lookup_insert_ne.
  - intros x Hx. simpl. apply heap_set_tile_None.
    replace (heap (leave a s)) with (heap s) by (unfold leave; by destruct (tile_of a s)).
    apply Hfresh. by replace (next_id s) with (next_id (leave a s))
      by (unfold leave; by destruct (tile_of a s)).
Qed.

(** An actor that is not a ball leaves the board. *)
Lemma links_ok_depart a t0 s :
  links_ok s → tile_of a s = Some t0 → body_of a s ≠ Some AColorfulBall →
  links_ok (set_tile a None (with_tile_actor (delete t0) s)).
Proof.
  intros (Hback & Hown & Hfresh) Ht0 Hball.
  pose proof (Hown _ _ Ht0 Hball) as Hocc.
  split; [|split].
  - intros t1 b. unfold actor. simpl. intros Hb.
    destruct (decide (t0 = t1)) as [->|Hne]; [by rewrite lookup_delete_eq in Hb|].
    rewrite lookup_delete_ne in Hb by done.
    pose proof (Hback _ _ Hb) as Htb.
    assert (a ≠ b) as Hab by (intros ->; congruence).
    change (tile_of b (set_tile a None (with_tile_actor (delete t0) s)) = Some t1).
    by rewrite tile_of_set_tile, decide_False.
  - intros b t1.
    change (tile_of b (set_tile a None (with_tile_actor (delete t0) s)) = Some t1 →
            body_of b (set_tile a None (with_tile_actor (delete t0) s)) ≠ Some AColorfulBall →
            delete t0 (tile_actor s) !! t1 = Some b).
    rewrite tile_of_set_tile, body_of_set_tile.
    destruct (decide (a = b)) as [->|Hne].
    + simpl. by destruct (heap s !! b).
    + intros Htb Hbody. pose proof (Hown _ _ Htb Hbody) as Hb.
      assert (t0 ≠ t1) as Htt by (intros ->; unfold actor in *; congruence).
      by rewrite lookup_delete_ne.
  - intros x Hx. apply heap_set_tile_None. by apply Hfresh.
Qed.

(** A ball is taken off its tile; its own field keeps the tile. *)
Lemma links_ok_drop_ball t b s :
  links_ok s → actor t s = Some b → body_of b s = Some AColorfulBall →
  links_ok (with_tile_actor (delete t) s).
Proof.
  intros (Hback & Hown & Hfresh) Hb Hball. split; [|split].
  - intros t1 x. unfold actor. simpl. intros Hx.
    destruct (decide (t = t1)) as [->|Hne]; [by rewrite lookup_delete_eq in Hx|].
    rewrite lookup_delete_ne in Hx by done. by apply Hback.
  - intros x t1 Htx Hbody. unfold actor. simpl.
    pose proof (Hown _ _ Htx Hbody) as Hx.
    assert (t ≠ t1) as Hne.
    { intros ->. unfold actor in *. rewrite Hb in Hx. injection Hx as ->. done. }
    by rewrite lookup_delete_ne.
  - done.
Qed.

(** The fields of an actor that is not a ball are rewritten. *)
Lemma links_ok_set_body a x s :
  links_ok s → body_of a s ≠ Some AColorfulBall →
  links_ok (set_body a x s).
Proof.
  intros (Hback & Hown & Hfresh) Hball. split; [|split].
  - intros t b Hb.
    change (tile_of b (set_body a x s) = Some t). rewrite tile_of_set_body.
    by apply Hback.
  - intros b t.
    change (tile_of b (set_body a x s) = Some t →
            body_of b (set_body a x s) ≠ Some AColorfulBall → actor t s = Some b).
    rewrite tile_of_set_body, body_of_set_body.
    destruct (decide (a = b)) as [->|Hne]; intros Htb Hbody; by apply Hown.
  - intros b Hb. apply heap_set_body_None. by apply Hfresh.
Qed.

(** A new object enters the store, off the board. *)
Lemma links_ok_new b s :
  links_ok s →
  links_ok (with_next_id (S (next_id s)) (with_heap <[next_id s := mkActor b None]> s)).
Proof.
  intros (Hback & Hown & Hfresh).
  assert (Hold : ∀ a, is_Some (tile_of a s) → a ≠ next_id s).
  { intros a [t Ht] ->. unfold tile_of in Ht. by rewrite Hfresh in Ht. }
  split; [|split].
  - intros t a Ha. pose proof (Hback _ _ Ha) as Hta.
    unfold tile_of. simpl. rewrite lookup_insert_ne; [done|].
    intros Heq. by apply (Hold a).
  - intros a t. unfold tile_of, body_of. simpl.
    destruct (decide (next_id s = a)) as [<-|Hne].
    + by rewrite lookup_insert_eq.
    + rewrite lookup_insert_ne by done. apply Hown.
  - intros a Ha. simpl in *. rewrite lookup_insert_ne by lia. apply Hfresh. lia.
Qed.

(** Only the board, the store and the next identity matter. *)
Lemma links_ok_same s s' :
  tile_actor s' = tile_actor s → heap s' = heap s → next_id s' = next_id s →
  links_ok s → links_ok s'.
Proof.
  intros H1 H2 H3. unfold links_ok, actor, tile_of, body_of.
  by rewrite H1, H2, H3.
Qed.

(** ** The invariant of cats *)

(** Only the object [a] changes, and it ends as a sound cat or as no cat. *)
Lemma cats_ok_update a s s' :
  cats_ok s →
  (∀ b, b ≠ a → heap s' !! b = heap s !! b) →
  (∀ c, get_cat a s' = Some c →
        cat_invariant c (is_on_board a s')
        ∧ (1 ≤ needed_rest_time c)%Z ∧ (0 < starting_attention c)%Z) →
  cats_ok s'.
Proof.
  intros Hok Hframe Ha b c Hc. destruct (decide (b = a)) as [->|Hne]; [by apply Ha|].
  unfold get_cat, body_of, is_on_board, tile_of in *.
  rewrite Hframe in * by done. by apply Hok.
Qed.

Lemma cats_ok_same s s' : heap s' = heap s → cats_ok s → cats_ok s'.
Proof.
  intros Hh Hok a c. unfold get_cat, body_of, is_on_board, tile_of.
  rewrite Hh. apply Hok.
Qed.

Lemma get_cat_set_tile a b o s : get_cat a (set_tile b o s) = get_cat a s.
Proof. unfold get_cat. by rewrite body_of_set_tile. Qed.

Lemma get_cat_with_tile_actor a f s : get_cat a (with_tile_actor f s) = get_cat a s.
Proof. done. Qed.

Lemma get_cat_heap a c s : get_cat a s = Some c → is_Some (heap s !! a).
Proof.
  unfold get_cat, body_of. destruct (heap s !! a); [by eexists|done].
Qed.

Lemma get_cat_not_ball a c s : get_cat a s = Some c → body_of a s ≠ Some AColorfulBall.
Proof. unfold get_cat. by destruct (body_of a s) as [[]|]. Qed.

Lemma get_contraption_not_ball a d s :
  get_contraption a s = Some d → body_of a s ≠ Some AColorfulBall.
Proof. unfold get_contraption. by destruct (body_of a s) as [[]|]. Qed.

Lemma get_contraption_not_cat a d s : get_contraption a s = Some d → get_cat a s = None.
Proof. unfold get_contraption, get_cat. by destruct (body_of a s) as [[]|]. Qed.

Lemma is_on_board_true a s : is_on_board a s = true ↔ is_Some (tile_of a s).
Proof. unfold is_on_board. apply bool_decide_eq_true. Qed.

Lemma is_on_board_false a s : is_on_board a s = false ↔ tile_of a s = None.
Proof.
  unfold is_on_board. rewrite bool_decide_eq_false.
  destruct (tile_of a s).
  - split; [intros H; exfalso; apply H; by eexists|done].
  - split; [done|by intros _ [? ?]].
Qed.

(** A cat that is on the board, or an actor that is no cat, moves onto an
    empty tile. *)
Lemma game_ok_teleport strict a t s s' :
  game_ok strict s → teleport a t s = Ok s' → is_Some (heap s !! a) →
  (body_of a s ≠ Some AColorfulBall ∨ tile_of a s = None) →
  (strict = true → ∀ c, get_cat a s = Some c → cat_invariant c true) →
  game_ok strict s'.
Proof.
  intros [Hl Hc] (-> & Hempty & _)%teleport_inv Hin Hball Hcat. split.
  - by apply links_ok_arrive.
  - intros Hs. specialize (Hc Hs). specialize (Hcat Hs).
    apply (cats_ok_update a s); [done| |].
    + intros b Hne. simpl. rewrite lookup_alter_ne by done.
      unfold leave. by destruct (tile_of a s).
    + intros c.
      assert (heap (leave a s) = heap s) as Hh by (unfold leave; by destruct (tile_of a s)).
      assert (is_on_board a (with_tile_actor <[t:=a]> (set_tile a (Some t) (leave a s))) = true)
        as ->.
      { apply is_on_board_true.
        change (is_Some (tile_of a (set_tile a (Some t) (leave a s)))).
        rewrite tile_of_set_tile, decide_True, Hh by done.
        destruct Hin as [o ->]. by eexists. }
      intros Hg. change (get_cat a (set_tile a (Some t) (leave a s)) = Some c) in Hg.
      rewrite get_cat_set_tile in Hg.
      replace (get_cat a (leave a s)) with (get_cat a s) in Hg
        by (unfold get_cat; by rewrite body_of_leave).
      split; [by apply Hcat|]. by apply (Hc a c).
Qed.

Lemma get_cat_set_body_same a x s c :
  get_cat a s = Some c → get_cat a (set_body a (ACat x) s) = Some x.
Proof.
  intros [o Ho]%get_cat_heap. unfold get_cat.
  by rewrite body_of_set_body, decide_True, Ho.
Qed.

Lemma game_ok_Cat_distract strict a amount s s' :
  game_ok strict s → Cat_distract a amount s = Ok s' → game_ok strict s'.
Proof.
  intros [Hl Hc]. unfold Cat_distract.
  destruct (get_cat a s) as [c|] eqn:Hg; [|done].
  pose proof (get_cat_not_ball _ _ _ Hg) as Hnb.
  case_bool_decide as Hamt; [|done]. simpl.
  case_bool_decide as Hle.
  - intros (t0 & Ht0 & _ & ->)%remove_from_board_inv.
    rewrite tile_of_set_body in Ht0. split.
    + apply (links_ok_depart a t0 (set_body a _ s)).
      * by apply links_ok_set_body.
      * by rewrite tile_of_set_body.
      * rewrite body_of_set_body, decide_True by done. by destruct (heap s !! a).
    + intros Hs. specialize (Hc Hs).
      destruct (Hc a c Hg) as (Hinv & Hneed & Hstart).
      apply (cats_ok_update a s); [done| |].
      * intros b Hne. simpl. by rewrite !lookup_alter_ne.
      * intros c'.
        match goal with
        | |- get_cat a ?X = Some c' → _ =>
            assert (is_on_board a X = false) as ->
              by (apply is_on_board_false; rewrite tile_of_set_tile, decide_True by done;
                  by destruct (heap _ !! a))
        end.
        rewrite get_cat_set_tile, get_cat_with_tile_actor.
        rewrite (get_cat_set_body_same _ _ _ _ Hg). intros [= <-].
        unfold cat_invariant. simpl.
        split; [|done]. split; [right; split; [done|split; [lia|done]]|].
        split; [lia|done].
  - intros [= <-]. split; [by apply links_ok_set_body|].
    intros Hs. specialize (Hc Hs).
    destruct (Hc a c Hg) as (Hinv & Hneed & Hstart).
    apply (cats_ok_update a s); [done| |].
    + intros b Hne. simpl. by rewrite lookup_alter_ne.
    + intros c'. rewrite (get_cat_set_body_same _ _ _ _ Hg). intros [= <-].
      replace (is_on_board a (set_body a (ACat (set_attention (attention c - amount) c)) s))
        with (is_on_board a s) by (unfold is_on_board; by rewrite tile_of_set_body).
      unfold cat_invariant in *. simpl. split; [|done].
      destruct Hinv as [[[Hon Hatt]|(Hoff & _ & Hzero)] Hiff].
      * rewrite Hon in *. split; [left; split; [done|lia]|]. done.
      * lia.
Qed.

Lemma game_ok_distract strict a amount s s' :
  game_ok strict s → distract a amount s = Ok s' → game_ok strict s'.
Proof.
  intros Hok. unfold distract. destruct (get_cat a s) as [c|] eqn:Hg; [|done].
  destruct (cat_class c); try apply (game_ok_Cat_distract _ _ _ _ _ Hok).
  unfold Calico_distract.
  intros (s1 & H1 & Hdodge)%seq_cmd_inv.
  pose proof (game_ok_Cat_distract _ _ _ _ _ Hok H1) as Hok1.
  destruct (tile_of a s1) as [t|] eqn:Ht; [|by injection Hdodge as <-].
  destruct (above t) as [ta|]; [|by injection Hdodge as <-].
  destruct (is_empty ta s1); [|by injection Hdodge as <-].
  assert (is_Some (heap s1 !! a)) as Hin.
  { unfold tile_of in Ht. destruct (heap s1 !! a); [by eexists|done]. }
  apply (game_ok_teleport strict a ta s1 s' Hok1 Hdodge Hin).
  - (* the actor is still the cat it was *)
    unfold Cat_distract in H1. rewrite Hg in H1.
    case_bool_decide; [|done]. simpl in H1. case_bool_decide.
    + apply remove_from_board_inv in H1 as (t0 & _ & _ & ->).
      rewrite tile_of_set_tile, decide_True in Ht by done.
      by destruct (heap _ !! a).
    + injection H1 as <-. left.
      rewrite body_of_set_body, decide_True by done.
      by destruct (heap s !! a).
  - intros Hs c1 Hg1. destruct Hok1 as [_ Hc1]. specialize (Hc1 Hs).
    destruct (Hc1 a c1 Hg1) as (Hinv & _).
    replace (is_on_board a s1) with true in Hinv; [done|].
    symmetry. apply is_on_board_true. by eexists.
Qed.

(** ** The invariants through the commands of a round *)

Lemma game_ok_same strict s s' :
  tile_actor s' = tile_actor s → heap s' = heap s → next_id s' = next_id s →
  game_ok strict s → game_ok strict s'.
Proof.
  intros H1 H2 H3 [Hl Hc]. split; [by apply (links_ok_same s)|].
  intros Hs. by apply (cats_ok_same s), Hc.
Qed.

(** An actor that is no cat, and no ball, changes or leaves the board. *)
Lemma game_ok_set_body_contraption strict a d x s :
  game_ok strict s → get_contraption a s = Some d →
  game_ok strict (set_body a (AContraption x) s).
Proof.
  intros [Hl Hc] Hd. split.
  - apply links_ok_set_body; [done|by eapply get_contraption_not_ball].
  - intros Hs. specialize (Hc Hs). apply (cats_ok_update a s); [done| |].
    + intros b Hne. simpl. by rewrite lookup_alter_ne.
    + intros c. unfold get_cat. rewrite body_of_set_body, decide_True by done.
      by destruct (heap s !! a).
Qed.

Lemma game_ok_Contraption_interact strict a d s s' :
  game_ok strict s → get_contraption a s = Some d →
  Contraption_interact a s = Ok s' → game_ok strict s'.
Proof.
  intros [Hl Hc] Hd. unfold Contraption_interact.
  destruct (tile_of a s) as [t|] eqn:Ht; [|done].
  intros (s3 & (s2 & (s1 & [-> _]%clear_actor_inv & [= <-])%seq_cmd_inv
                & [-> _]%manager_inv)%seq_cmd_inv & Hrem)%seq_cmd_inv.
  unfold remove_contraption in Hrem. simpl in Hrem.
  destruct (list_remove a (contraptions s)) as [l|]; [|done].
  injection Hrem as <-.
  apply (game_ok_same strict (set_tile a None (with_tile_actor (delete t) s))); try done.
  split.
  - apply links_ok_depart; [done..|by eapply get_contraption_not_ball].
  - intros Hs. specialize (Hc Hs). apply (cats_ok_update a s); [done| |].
    + intros b Hne. simpl. by rewrite lookup_alter_ne.
    + intros c. rewrite get_cat_set_tile, get_cat_with_tile_actor.
      by rewrite (get_contraption_not_cat _ _ _ Hd).
Qed.

Lemma get_contraption_set_body a x s d :
  get_contraption a s = Some d →
  get_contraption a (set_body a (AContraption x) s) = Some x.
Proof.
  unfold get_contraption. rewrite body_of_set_body, decide_True by done.
  unfold body_of. by destruct (heap s !! a).
Qed.

Lemma game_ok_interact strict a s s' :
  game_ok strict s → interact a s = Ok s' → game_ok strict s'.
Proof.
  intros Hok. unfold interact.
  destruct (get_contraption a s) as [d|] eqn:Hd; [|done].
  destruct d; try apply (game_ok_Contraption_interact _ _ _ _ _ Hok Hd).
  unfold SnackDispenser_interact.
  intros (s1 & [= <-] & Hrest)%seq_cmd_inv.
  pose proof (game_ok_set_body_contraption strict a _ (SnackDispenser (uses - 1)) s Hok Hd) as Hok1.
  case_bool_decide.
  - eapply game_ok_Contraption_interact; [exact Hok1| |exact Hrest].
    by eapply get_contraption_set_body.
  - by injection Hrest as <-.
Qed.

Lemma check_space_heater_inv a s s' :
  Cat_check_space_heater a s = Ok s' → s' = s ∨ distract a 1 s = Ok s'.
Proof.
  unfold Cat_check_space_heater. cbv zeta.
  repeat (match goal with
          | |- context [if heater_at ?o s then _ else _] =>
              destruct (heater_at o s); [by right|]
          end).
  destruct (tile_of a s) as [t|]; [|done].
  destruct (above t) as [ta|], (below (lane_count s) t) as [tb|];
    repeat (match goal with
            | |- context [if heater_at ?o s then _ else _] =>
                destruct (heater_at o s); [by right|]
            end);
    intros [= <-]; by left.
Qed.

Lemma game_ok_check_space_heater strict a s s' :
  game_ok strict s → Cat_check_space_heater a s = Ok s' → game_ok strict s'.
Proof.
  intros Hok [->|Hd]%check_space_heater_inv; [done|].
  by eapply game_ok_distract.
Qed.

Lemma game_ok_destroyed strict line s :
  game_ok strict s → game_ok strict (with_destroyed (with_stdout line s)).
Proof. by apply game_ok_same. Qed.

Lemma game_ok_Cat_move strict a c s s' :
  game_ok strict s → get_cat a s = Some c → is_on_board a s = true →
  Cat_move a s = Ok s' → game_ok strict s'.
Proof.
  intros Hok Hg Hon. unfold Cat_move.
  destruct (tile_of a s) as [t|] eqn:Ht; [|done].
  assert (Hinv : strict = true → cat_invariant c true).
  { intros Hs. destruct Hok as [_ Hc]. destruct (Hc Hs a c Hg) as [Hinv _].
    by rewrite Hon in Hinv. }
  destruct (exit t) as [next_spot|].
  - destruct (actor next_spot s) as [other|] eqn:Hother.
    + destruct (body_of other s) as [[c'|d|]|] eqn:Hbody.
      * by intros [= <-].
      * by apply game_ok_interact.
      * intros (s3 & (s2 & (s1 & H1 & H2)%seq_cmd_inv & H3)%seq_cmd_inv & H4)%seq_cmd_inv.
        apply clear_actor_inv in H1 as [-> _].
        assert (game_ok strict (with_tile_actor (delete next_spot) s)) as Hok1.
        { destruct Hok as [Hl Hc]. split.
          - by eapply links_ok_drop_ball.
          - intros Hs. by apply (cats_ok_same s), Hc. }
        assert (game_ok strict s2) as Hok2.
        { eapply (game_ok_teleport strict a next_spot _ s2 Hok1 H2).
          - by eapply get_cat_heap.
          - left. by eapply get_cat_not_ball.
          - intros Hs c0. rewrite get_cat_with_tile_actor, Hg. intros [= <-]. by apply Hinv. }
        eapply game_ok_check_space_heater; [|exact H4].
        by eapply game_ok_distract.
      * by intros [= <-].
    + intros (s1 & H1 & H2)%seq_cmd_inv.
      eapply game_ok_check_space_heater; [|exact H2].
      eapply (game_ok_teleport strict a next_spot s s1 Hok H1).
      * by eapply get_cat_heap.
      * left. by eapply get_cat_not_ball.
      * intros Hs c0. rewrite Hg. intros [= <-]. by apply Hinv.
  - intros (s1 & [-> _]%manager_inv & Hlose)%seq_cmd_inv.
    unfold lose_game, destroy in Hlose.
    apply seq_cmd_inv in Hlose as (s1 & [= <-] & (s2 & [_ ->]%py_assert_inv & [= <-])%seq_cmd_inv).
    by apply game_ok_destroyed.
Qed.

Lemma is_on_board_set_body a b x s : is_on_board a (set_body b x s) = is_on_board a s.
Proof. unfold is_on_board. by rewrite tile_of_set_body. Qed.

Lemma game_ok_Cat_rest strict a c draw s s' :
  game_ok strict s → get_cat a s = Some c → is_on_board a s = false →
  Cat_rest a draw s = Ok s' → game_ok strict s'.
Proof.
  intros [Hl Hc] Hg Hoff. unfold Cat_rest. rewrite Hg. cbv zeta.
  assert (Hcat : strict = true →
            (0 ≤ rest_time c)%Z ∧ attention c = 0%Z ∧ rest_time c ≠ 0%Z
            ∧ (1 ≤ needed_rest_time c)%Z ∧ (0 < starting_attention c)%Z ∧ cats_ok s).
  { intros Hs. specialize (Hc Hs). destruct (Hc a c Hg) as (Hinv & Hneed & Hstart).
    rewrite Hoff in Hinv.
    destruct Hinv as [[[? _]|(_ & Hrest & Hatt)] Hiff]; [done|].
    split_and!; try done. intros Hz. by apply Hiff in Hz. }
  pose proof (get_cat_not_ball _ _ _ Hg) as Hnb.
  pose proof (get_cat_heap _ _ _ Hg) as [o Ho].
  set (c1 := set_rest_time (rest_time c - 1) c).
  assert (Hl1 : links_ok (set_body a (ACat c1) s)) by (by apply links_ok_set_body).
  assert (Hg1 : get_cat a (set_body a (ACat c1) s) = Some c1)
    by (by eapply get_cat_set_body_same).
  assert (Hframe : ∀ x y b, b ≠ a →
            heap (set_body a x (set_body a y s)) !! b = heap s !! b).
  { intros x y b Hne. simpl. by rewrite !lookup_alter_ne. }
  case_bool_decide as Hzero.
  - intros (s2 & [-> _]%manager_inv & Hrun)%seq_cmd_inv.
    destruct (empty_lanes (set_body a (ACat c1) s)) as [|lane others].
    + injection Hrun as <-. split.
      * apply links_ok_set_body; [done|]. by eapply get_cat_not_ball.
      * intros Hs. destruct (Hcat Hs) as (Hrest & Hatt & Hnz & Hneed & Hstart & Hok).
        apply (cats_ok_update a s); [done|by apply Hframe|].
        intros c'. rewrite (get_cat_set_body_same _ _ _ _ Hg1). intros [= <-].
        rewrite !is_on_board_set_body, Hoff.
        unfold cat_invariant. simpl. split; [|done].
        split; [right; split; [done|split; [lia|done]]|]. split; [lia|done].
    + match type of Hrun with
      | teleport a ?lane_to_add ?X = Ok s' =>
          set (target := lane_to_add) in *; set (s3 := X) in *
      end.
      assert (links_ok s3) as Hl3.
      { apply links_ok_set_body; [done|]. by eapply get_cat_not_ball. }
      assert (tile_of a s3 = None) as Hoff3.
      { unfold s3. rewrite !tile_of_set_body. by apply is_on_board_false. }
      assert (is_Some (heap s3 !! a)) as Hin3.
      { unfold s3. simpl. rewrite !lookup_alter_eq, Ho. by eexists. }
      apply teleport_inv in Hrun as (-> & Hempty & _). split.
      * apply links_ok_arrive; try done. by right.
      * intros Hs. destruct (Hcat Hs) as (Hrest & Hatt & Hnz & Hneed & Hstart & Hok).
        assert (leave a s3 = s3) as Hleave by (unfold leave; by rewrite Hoff3).
        rewrite Hleave. apply (cats_ok_update a s); [done| |].
        -- intros b Hne. simpl. by rewrite !lookup_alter_ne.
        -- intros c'. rewrite get_cat_with_tile_actor, get_cat_set_tile.
           unfold s3. rewrite (get_cat_set_body_same _ _ _ _ Hg1). intros [= <-].
           match goal with
           | |- cat_invariant _ (is_on_board a ?X) ∧ _ =>
               assert (is_on_board a X = true) as ->
           end.
           { apply is_on_board_true.
             match goal with
             | |- is_Some (tile_of a (with_tile_actor ?f ?Y)) =>
                 change (is_Some (tile_of a Y))
             end.
             rewrite tile_of_set_tile, decide_True by done.
             unfold s3 in Hin3. destruct Hin3 as [o3 ->]. by eexists. }
           unfold cat_invariant. simpl in *. split; [|done].
           split; [left; split; [done|lia]|]. done.
  - intros [= <-]. split; [done|].
    intros Hs. destruct (Hcat Hs) as (Hrest & Hatt & Hnz & Hneed & Hstart & Hok).
    apply (cats_ok_update a s); [done| |].
    + intros b Hne. simpl. by rewrite lookup_alter_ne.
    + intros c'. rewrite Hg1. intros [= <-]. rewrite is_on_board_set_body, Hoff.
      unfold cat_invariant. simpl in *. split; [|done].
      split; [right; split; [done|split; [lia|done]]|]. done.
Qed.

(** A cat stays a cat through its own move. *)
Lemma teleport_get_cat a b t s s' :
  teleport a t s = Ok s' → get_cat b s' = get_cat b s.
Proof.
  intros (-> & _)%teleport_inv.
  rewrite get_cat_with_tile_actor, get_cat_set_tile.
  unfold get_cat. by rewrite body_of_leave.
Qed.

Lemma Cat_distract_keeps_cat a c amount s s' :
  get_cat a s = Some c → Cat_distract a amount s = Ok s' → is_Some (get_cat a s').
Proof.
  intros Hg. unfold Cat_distract. rewrite Hg.
  case_bool_decide; [|done]. simpl. case_bool_decide.
  - intros (t0 & _ & _ & ->)%remove_from_board_inv.
    rewrite get_cat_set_tile, get_cat_with_tile_actor.
    erewrite get_cat_set_body_same by done. by eexists.
  - intros [= <-]. erewrite get_cat_set_body_same by done. by eexists.
Qed.

Lemma distract_keeps_cat a c amount s s' :
  get_cat a s = Some c → distract a amount s = Ok s' → is_Some (get_cat a s').
Proof.
  intros Hg. unfold distract. rewrite Hg.
  destruct (cat_class c); try by apply (Cat_distract_keeps_cat a c).
  unfold Calico_distract. intros (z & Hz & Hdodge)%seq_cmd_inv.
  pose proof (Cat_distract_keeps_cat a c _ _ _ Hg Hz) as Hcz.
  destruct (tile_of a z) as [tz|]; [|by injection Hdodge as <-].
  destruct (above tz) as [ta|]; [|by injection Hdodge as <-].
  destruct (is_empty ta z); [|by injection Hdodge as <-].
  by rewrite (teleport_get_cat _ _ _ _ _ Hdodge).
Qed.

Lemma check_space_heater_keeps_cat a c s s' :
  get_cat a s = Some c → Cat_check_space_heater a s = Ok s' → is_Some (get_cat a s').
Proof.
  intros Hg [->|Hd]%check_space_heater_inv; [by eexists|].
  by eapply distract_keeps_cat.
Qed.

Lemma Cat_move_keeps_cat a c s s' :
  get_cat a s = Some c → Cat_move a s = Ok s' → is_Some (get_cat a s').
Proof.
  intros Hg. unfold Cat_move.
  destruct (tile_of a s) as [t|]; [|done].
  destruct (exit t) as [next_spot|].
  - destruct (actor next_spot s) as [other|] eqn:Hother.
    + destruct (body_of other s) as [[c'|d|]|] eqn:Hbody.
      * intros [= <-]. by eexists.
      * intros Hint.
        assert (other ≠ a) as Hne.
        { intros ->. unfold get_cat in Hg. by rewrite Hbody in Hg. }
        pose proof (interact_heap_other other a s s' Hne Hint) as Hsame.
        unfold get_cat, body_of in *. rewrite Hsame. by eexists.
      * intros (s3 & (s2 & (s0 & [-> _]%clear_actor_inv & H2)%seq_cmd_inv
                      & H3)%seq_cmd_inv & H4)%seq_cmd_inv.
        assert (get_cat a s2 = Some c) as Hg2
          by (by rewrite (teleport_get_cat _ _ _ _ _ H2)).
        destruct (distract_keeps_cat a c 1 s2 s3 Hg2 H3) as [c3 Hc3].
        by eapply check_space_heater_keeps_cat.
      * intros [= <-]. by eexists.
    + intros (s2 & H2 & H4)%seq_cmd_inv.
      assert (get_cat a s2 = Some c) as Hg2
        by (by rewrite (teleport_get_cat _ _ _ _ _ H2)).
      by eapply check_space_heater_keeps_cat.
  - intros (s2 & [-> _]%manager_inv & Hlose)%seq_cmd_inv.
    unfold lose_game, destroy in Hlose.
    apply seq_cmd_inv in Hlose
      as (s3 & [= <-] & (s4 & [_ ->]%py_assert_inv & [= <-])%seq_cmd_inv).
    by eexists.
Qed.

Lemma game_ok_cat_end_round strict a draw s s' :
  game_ok strict s → cat_end_round a draw s = Ok s' → game_ok strict s'.
Proof.
  intros Hok. unfold cat_end_round.
  destruct (get_cat a s) as [c|] eqn:Hg; [|done].
  assert (Hbase : Cat_end_round a draw s = Ok s' → game_ok strict s').
  { unfold Cat_end_round. destruct (is_on_board a s) eqn:Hon.
    - by apply (game_ok_Cat_move strict a c).
    - by apply (game_ok_Cat_rest strict a c). }
  destruct (cat_class c); try done.
  unfold Kitten_end_round. destruct (is_on_board a s) eqn:Hon.
  - intros (s1 & H1 & H2)%seq_cmd_inv.
    pose proof (game_ok_Cat_move strict a c s s1 Hok Hg Hon H1) as Hok1.
    destruct (is_on_board a s1) eqn:Hon1; [|by injection H2 as <-].
    destruct (Cat_move_keeps_cat a c s s1 Hg H1) as [c1 Hg1].
    by apply (game_ok_Cat_move strict a c1 s1 s').
  - by apply (game_ok_Cat_rest strict a c).
Qed.

Lemma game_ok_scan strict chain s s' :
  game_ok strict s → scan chain s = Ok s' → game_ok strict s'.
Proof.
  revert s. induction chain as [|t chain IH]; intros s Hok; simpl.
  - by intros [= <-].
  - destruct (actor t s) as [a|]; [|by apply IH].
    destruct (is_cat a s); [by apply game_ok_distract|by apply IH].
Qed.

Lemma game_ok_new_actor strict b s s' :
  game_ok strict s → (∀ c, b ≠ ACat c) → new_actor b s = Ok s' →
  game_ok strict s'
  ∧ tile_of (next_id s) s' = None ∧ is_Some (heap s' !! next_id s)
  ∧ body_of (next_id s) s' = Some b
  ∧ tile_actor s' = tile_actor s.
Proof.
  intros [Hl Hc] Hb. unfold new_actor.
  intros (s1 & [-> _]%manager_inv & [= <-])%seq_cmd_inv.
  split; [split|].
  - by apply links_ok_new.
  - intros Hs. apply (cats_ok_update (next_id s) s); [by apply Hc| |].
    + intros a Hne. simpl. by rewrite lookup_insert_ne.
    + intros c. unfold get_cat, body_of. simpl. rewrite lookup_insert_eq. simpl.
      destruct b; try done. by destruct (Hb c0).
  - unfold tile_of, body_of. simpl. rewrite lookup_insert_eq. by split_and!.
Qed.

Lemma game_ok_contraption_end_round strict a s s' :
  game_ok strict s → contraption_end_round a s = Ok s' → game_ok strict s'.
Proof.
  intros Hok. unfold contraption_end_round.
  destruct (get_contraption a s) as [d|] eqn:Hd; [|done].
  destruct d; try (by intros [= <-]).
  - unfold LaserPointer_end_round. destruct (tile_of a s); [|done].
    by apply game_ok_scan.
  - unfold BatteryCharger_end_round.
    intros (s1 & H1 & [= <-])%seq_cmd_inv.
    assert (tile_actor s1 = tile_actor s ∧ heap s1 = heap s ∧ next_id s1 = next_id s)
      as (E1 & E2 & E3).
    { destruct ready; [|by injection H1 as <-].
      apply seq_cmd_inv in H1 as (s4 & (s3 & (s2 & [-> _]%manager_inv
                 & [= <-])%seq_cmd_inv & [-> _]%manager_inv)%seq_cmd_inv & H4).
      unfold update_battery_text in H4. by apply py_assert_inv in H4 as [_ ->]. }
    apply (game_ok_set_body_contraption strict a (BatteryCharger ready)).
    + by apply (game_ok_same strict s).
    + unfold get_contraption, body_of in *. by rewrite E2.
  - unfold BallThrower_end_round. destruct (tile_of a s); [|done].
    by apply game_ok_scan.
  - unfold TripleLaserPointer_end_round.
    intros (s2 & (s1 & H1 & H2)%seq_cmd_inv & H3)%seq_cmd_inv.
    assert (game_ok strict s1) as Hok1.
    { destruct (tile_of a s); [|done]. by eapply game_ok_scan. }
    assert (game_ok strict s2) as Hok2.
    { destruct (tile_of a s1) as [t|]; [|done].
      destruct (above t); [by eapply game_ok_scan|by injection H2 as <-]. }
    destruct (tile_of a s2) as [t|]; [|done].
    destruct (below (lane_count s2) t); [by eapply game_ok_scan|by injection H3 as <-].
  - unfold ColorfulBallThrower_end_round. destruct (tile_of a s) as [t|]; [|done].
    destruct (found_cat _ s); [by apply game_ok_scan|].
    destruct (last_empty _ s) as [target|]; [|by intros [= <-]].
    intros (s1 & H1 & H2)%seq_cmd_inv.
    destruct (game_ok_new_actor strict AColorfulBall s s1 Hok) as (Hok1 & Hoff & Hin & Hbody & _);
      [done|done|].
    apply (game_ok_teleport strict (next_id s) target s1 s' Hok1 H2 Hin).
    + by right.
    + intros _ c. unfold get_cat. by rewrite Hbody.
Qed.

Lemma game_ok_for_contraptions strict fuel : ∀ i s s',
  game_ok strict s → for_contraptions fuel i s = Ok s' → game_ok strict s'.
Proof.
  induction fuel as [|fuel IH]; intros i s s' Hok; simpl; [by intros [= <-]|].
  destruct (contraptions s !! i) as [a|]; [|by intros [= <-]].
  intros (s1 & H1 & H2)%seq_cmd_inv.
  eapply IH; [|exact H2]. by eapply game_ok_contraption_end_round.
Qed.

Lemma add_batteries_inv amount s s' :
  add_batteries amount s = Ok s' →
  s' = with_batteries (batteries s + amount) s ∧ (0 ≤ amount)%Z
  ∧ (0 ≤ batteries s + amount)%Z.
Proof.
  unfold add_batteries, update_battery_text.
  intros (s2 & (s1 & [H1 ->]%py_assert_inv & [= <-])%seq_cmd_inv
          & [H2 ->]%py_assert_inv)%seq_cmd_inv.
  apply bool_decide_eq_true in H1, H2. by split_and!.
Qed.

Lemma spend_batteries_inv amount s s' :
  spend_batteries amount s = Ok s' →
  s' = with_batteries (batteries s - amount) s ∧ (0 ≤ amount ≤ batteries s)%Z.
Proof.
  unfold spend_batteries, update_battery_text.
  intros (s2 & (s1 & [H1 ->]%py_assert_inv & [= <-])%seq_cmd_inv
          & [H2 ->]%py_assert_inv)%seq_cmd_inv.
  apply andb_true_iff in H1 as [H1 H1']. apply bool_decide_eq_true in H1, H1'.
  by split_and!.
Qed.

Lemma increment_round_inv s s' :
  increment_round s = Ok s' →
  (0 ≤ rounds s + 1)%Z
  ∧ (s' = with_rounds (rounds s + 1) s ∧ (rounds s + 1 < WIN_ROUND)%Z
     ∨ s' = with_destroyed (with_stdout "You win!" (with_rounds (rounds s + 1) s))
       ∧ (WIN_ROUND ≤ rounds s + 1)%Z ∧ instance s = true).
Proof.
  unfold increment_round, update_round_text.
  intros (s2 & (s1 & [= <-] & [H2 ->]%py_assert_inv)%seq_cmd_inv & H3)%seq_cmd_inv.
  apply bool_decide_eq_true in H2. simpl in *. split; [done|].
  case_bool_decide as Hw.
  - right. unfold win_game, destroy in H3.
    apply seq_cmd_inv in H3 as (s3 & [= <-] & (s4 & [Hi ->]%py_assert_inv & [= <-])%seq_cmd_inv).
    by split_and!.
  - left. injection H3 as <-. split; [done|lia].
Qed.

Lemma game_ok_increment_round strict s s' :
  game_ok strict s → increment_round s = Ok s' → game_ok strict s'.
Proof.
  intros Hok (_ & [[-> _]|(-> & _)])%increment_round_inv; by apply (game_ok_same strict s).
Qed.

Lemma game_ok_for_cats strict draws l : ∀ s s',
  game_ok strict s → for_cats draws l increment_round s = Ok s' → game_ok strict s'.
Proof.
  induction l as [|a l IH]; intros s s' Hok; simpl.
  - by apply game_ok_increment_round.
  - destruct (cat_end_round a (draws a) s) as [s1|] eqn:E; [|done].
    pose proof (game_ok_cat_end_round _ _ _ _ _ Hok E) as Hok1.
    destruct (game_ended s1); [by intros [= <-]|by apply IH].
Qed.

Lemma game_ok_end_round strict draws s s' :
  game_ok strict s → end_round draws s = Ok s' → game_ok strict s'.
Proof.
  intros Hok. unfold end_round.
  intros (s2 & (s1 & (-> & _)%add_batteries_inv & H2)%seq_cmd_inv & H3)%seq_cmd_inv.
  eapply game_ok_for_cats; [|exact H3].
  eapply game_ok_for_contraptions; [|exact H2].
  by apply (game_ok_same strict s).
Qed.

Lemma game_ok_Tile_clicked strict t s s' :
  game_ok strict s → Tile_clicked t s = Ok s' → game_ok strict s'.
Proof.
  intros Hok. unfold Tile_clicked.
  intros (s0 & [-> _]%manager_inv & Hrun)%seq_cmd_inv.
  destruct (current_selector s) as [k|]; [|by injection Hrun as <-].
  cbv zeta in Hrun.
  destruct (_ && _) in Hrun; [|by injection Hrun as <-].
  apply seq_cmd_inv in Hrun as (s3 & (s2 & (s1 & (-> & _)%spend_batteries_inv
                 & H2)%seq_cmd_inv & [= <-])%seq_cmd_inv & H4).
  destruct (game_ok_new_actor strict (AContraption (construct k))
              (with_batteries (batteries s - cost (construct k)) s) s2)
    as (Hok2 & Hoff & Hin & Hbody & _); [by apply (game_ok_same strict s)|done|done|].
  simpl in Hoff, Hin, Hbody.
  unfold Contraption_place in H4.
  apply seq_cmd_inv in H4 as (s5 & (s4 & [-> _]%manager_inv & [= <-])%seq_cmd_inv & H6).
  apply (game_ok_teleport strict (next_id s) t
           (with_contraptions (contraptions (with_current_selector None s2) ++ [next_id s])
              (with_current_selector None s2)) s'); try done.
  - by right.
  - intros _ c. unfold get_cat, body_of in *. simpl. by rewrite Hbody.
Qed.

(** ** The invariants in every game that can be reached *)

Lemma new_cat_fields k r c :
  new_cat k r = Some c →
  attention c = 0%Z ∧ rest_time c = r ∧ (0 ≤ r)%Z
  ∧ (1 ≤ needed_rest_time c)%Z ∧ (0 < starting_attention c)%Z.
Proof.
  unfold new_cat, Cat_init. destruct k; simpl;
    (case_bool_decide as Hr; [|done]); intros [= <-]; simpl; by split_and!.
Qed.

Lemma add_cats_ok strict l : ∀ s s',
  (strict = true → Forall (λ p, (1 ≤ p.2)%Z) l) →
  tile_actor s = ∅ →
  (∀ a o, heap s !! a = Some o → tile o = None) →
  (∀ a, next_id s ≤ a → heap s !! a = None) →
  (strict = true → cats_ok s) →
  add_cats l s = Some s' → game_ok strict s'.
Proof.
  induction l as [|[k r] l IH]; intros s s' Hrest Hboard Hoff Hfresh Hcats; simpl.
  - intros [= <-]. split; [|done]. split; [|split]; [| |done].
    + intros t a. unfold actor. by rewrite Hboard, lookup_empty.
    + intros a t. unfold tile_of. destruct (heap s !! a) as [o|] eqn:Ho; [|done].
      simpl. by rewrite (Hoff a o Ho).
  - destruct (new_cat k r) as [c|] eqn:Hnew; [|done].
    apply new_cat_fields in Hnew as (Hatt & Hr & Hr0 & Hneed & Hstart).
    apply IH.
    + intros Hs. specialize (Hrest Hs). by apply Forall_cons in Hrest as [_ ?].
    + done.
    + simpl. intros a o. destruct (decide (next_id s = a)) as [<-|Hne].
      * rewrite lookup_insert_eq. by intros [= <-].
      * rewrite lookup_insert_ne by done. apply Hoff.
    + simpl. intros a Ha. rewrite lookup_insert_ne by lia. apply Hfresh. lia.
    + intros Hs. specialize (Hrest Hs). apply Forall_cons in Hrest as [Hr1 _].
      simpl in Hr1.
      apply (cats_ok_update (next_id s) s); [by apply Hcats| |].
      * intros b Hne. simpl. by rewrite lookup_insert_ne.
      * intros c'. unfold get_cat, body_of, is_on_board, tile_of. simpl.
        rewrite lookup_insert_eq. simpl. intros [= <-].
        unfold cat_invariant. split; [|done].
        split; [right; split; [done|split; [lia|done]]|].
        split; [lia|done].
Qed.

Lemma initialize_ok strict lanes l s :
  (strict = true → Forall (λ p, (1 ≤ p.2)%Z) l) →
  initialize lanes l = Some s → game_ok strict s.
Proof.
  intros Hrest. unfold initialize. by apply add_cats_ok.
Qed.

Lemma reachable_game_ok strict lanes l s :
  (strict = true → Forall (λ p, (1 ≤ p.2)%Z) l) →
  reachable lanes l s → game_ok strict s.
Proof.
  intros Hrest Hreach. induction Hreach as [s Hinit|k s _ IH|t s s' _ IH _ Hrun|draws s s' _ IH Hrun].
  - by eapply initialize_ok.
  - by apply (game_ok_same strict s).
  - by eapply game_ok_Tile_clicked.
  - by eapply game_ok_end_round.
Qed.

(** X1. In every game that can be reached from [GameManager.initialize] by
    selecting, clicking tiles of the board and ending turns, whatever the
    cats, the links between tiles and actors are sound: the occupant of a
    tile reports that tile, every cat or contraption that reports a tile is
    the occupant of that tile, and so no two of them report the same tile.
    Only a ball that has been picked up keeps a tile it is no longer on. *)
Theorem reachable_links (lanes : nat) (l : list (CatClass * Z)) (s : Game) :
  reachable lanes l s →
  occupants_point_back s
  ∧ (∀ a t, tile_of a s = Some t → body_of a s ≠ Some AColorfulBall →
            actor t s = Some a)
  ∧ (∀ a b t, tile_of a s = Some t → tile_of b s = Some t →
              body_of a s ≠ Some AColorfulBall → body_of b s ≠ Some AColorfulBall →
              a = b).
Proof.
  intros Hreach.
  destruct (reachable_game_ok false lanes l s) as [(Hback & Hown & _) _]; [done|done|].
  split; [exact Hback|]. split; [exact Hown|].
  intros a b t Ha Hb Hna Hnb.
  pose proof (Hown a t Ha Hna) as H1. pose proof (Hown b t Hb Hnb) as H2.
  congruence.
Qed.

(** X2. When every cat is built with an initial rest time of at least 1, in
    every game that can be reached every cat is either on the board with
    attention left and rest time 0, or off the board with no attention and a
    rest time of at least 1. *)
Theorem reachable_cats (lanes : nat) (l : list (CatClass * Z)) (s : Game) :
  Forall (λ p, (1 ≤ p.2)%Z) l → reachable lanes l s →
  ∀ a c, get_cat a s = Some c →
         cat_invariant c (is_on_board a s)
         ∧ (is_on_board a s = true → (0 < attention c)%Z ∧ rest_time c = 0%Z)
         ∧ (is_on_board a s = false → attention c = 0%Z ∧ (1 ≤ rest_time c)%Z).
Proof.
  intros Hrest Hreach a c Hg.
  destruct (reachable_game_ok true lanes l s) as [_ Hc]; [done|done|].
  destruct (Hc eq_refl a c Hg) as (Hinv & _). split; [done|].
  destruct Hinv as [[[Hon Hatt]|(Hoff & Hr & Hz)] Hiff].
  - split; [intros _; split; [done|by apply Hiff]|]. rewrite Hon. done.
  - rewrite Hoff in *. split; [done|]. intros _. split; [done|].
    assert (rest_time c ≠ 0%Z) by (intros Hx; by apply Hiff in Hx). lia.
Qed.

Lemma reachable_tabby_before_ball : reachable 1 [(Tabby, 1%Z)] tabby_before_ball.
Proof.
  pose (d := first_lane).
  assert (∀ s t s', reachable 1 [(Tabby, 1%Z)] s → lane_count s = 1 →
            t.1 < 1 → t.2 < LANE_WIDTH → Tile_clicked t s = Ok s' →
            reachable 1 [(Tabby, 1%Z)] s') as Hclick.
  { intros s t s' Hr Hl H1 H2 Hrun. eapply reach_click; [exact Hr| |exact Hrun].
    unfold on_board. by rewrite Hl. }
  set (s0 := state_of (play [(Tabby, 1%Z)] Ok)).
  assert (reachable 1 [(Tabby, 1%Z)] s0) as H0
    by (apply reach_initialize; vm_compute; reflexivity).
  set (s1 := state_of (Tile_clicked (0, 0) (with_current_selector (Some KColorfulBallThrower) s0))).
  assert (reachable 1 [(Tabby, 1%Z)] s1) as H1.
  { eapply (Hclick (with_current_selector (Some KColorfulBallThrower) s0) (0, 0));
      [apply reach_select, H0| | | |];
      [vm_compute; reflexivity|simpl; lia|unfold LANE_WIDTH; simpl; lia|
       vm_compute; reflexivity]. }
  set (s2 := state_of (end_round d s1)).
  assert (reachable 1 [(Tabby, 1%Z)] s2) as H2
    by (apply (reach_end_round _ _ d s1 s2 H1); vm_compute; reflexivity).
  set (s3 := state_of (end_round d s2)).
  assert (reachable 1 [(Tabby, 1%Z)] s3) as H3
    by (apply (reach_end_round _ _ d s2 s3 H2); vm_compute; reflexivity).
  set (s4 := state_of (end_round d s3)).
  assert (reachable 1 [(Tabby, 1%Z)] s4) as H4
    by (apply (reach_end_round _ _ d s3 s4 H3); vm_compute; reflexivity).
  set (s5 := state_of (end_round d s4)).
  assert (reachable 1 [(Tabby, 1%Z)] s5) as H5
    by (apply (reach_end_round _ _ d s4 s5 H4); vm_compute; reflexivity).
  assert (tabby_before_ball = s5) as -> by (vm_compute; reflexivity).
  exact H5.
Qed.

Lemma reachable_links_witness : occupants_point_back tabby_before_ball.
Proof. exact (proj1 (reachable_links 1 _ _ reachable_tabby_before_ball)). Defined.

Lemma reachable_cats_witness :
  cat_invariant (mkCat Tabby 4 4 4 0) (is_on_board 0 tabby_before_ball).
Proof.
  assert (Forall (λ p : CatClass * Z, (1 ≤ p.2)%Z) [(Tabby, 1%Z)]) as Hrest.
  { constructor; [simpl; lia|constructor]. }
  assert (get_cat 0 tabby_before_ball = Some (mkCat Tabby 4 4 4 0)) as Hg
    by (vm_compute; reflexivity).
  exact (proj1 (reachable_cats 1 _ _ Hrest reachable_tabby_before_ball 0 _ Hg)).
Defined.


(** ** Resting *)

Lemma empty_lanes_elem lane s :
  lane ∈ empty_lanes s
  ↔ (∃ i, i < lane_count s ∧ lane = get_lane_entrance i) ∧ tile_actor s !! lane = None.
Proof.
  unfold empty_lanes. rewrite list_elem_of_filter, list_elem_of_fmap.
  setoid_rewrite elem_of_seq. split.
  - intros [He (i & -> & Hi)]. split; [|done]. exists i. split; [lia|done].
  - intros [(i & Hi & ->) He]. split; [done|]. exists i. split; [done|lia].
Qed.

Lemma set_body_same a c s :
  heap s !! a = Some (mkActor (ACat c) None) →
  set_body a (ACat c) s = s.
Proof.
  intros Ho. destruct s. unfold set_body, with_heap. simpl in *. f_equal.
  apply map_eq. intros b. destruct (decide (a = b)) as [<-|Hne].
  - by rewrite lookup_alter_eq, Ho.
  - by rewrite lookup_alter_ne.
Qed.

Lemma set_body_twice a x y s : set_body a x (set_body a y s) = set_body a x s.
Proof.
  destruct s. unfold set_body, with_heap. simpl. f_equal.
  apply map_eq. intros b. destruct (decide (a = b)) as [<-|Hne].
  - rewrite !lookup_alter_eq. by destruct (_ !! a).
  - by rewrite !lookup_alter_ne.
Qed.

(** X3. [Cat.rest] of a cat that is off the board.  With a rest time other
    than 1 only the rest time changes, by one.  With rest time 1 the cat
    asks the manager for the board: once the game has been destroyed this
    raises; with no empty entrance tile nothing changes (the rest time is 1
    again); otherwise the cat enters on an entrance tile that was empty, the
    one the draw picks, with its starting attention and rest time 0, and
    nothing else on the board moves. *)
Theorem Cat_rest_cases (a : nat) (c : Cat) (draw : nat) (s : Game) :
  heap s !! a = Some (mkActor (ACat c) None) →
  (rest_time c ≠ 1%Z →
     Cat_rest a draw s = Ok (set_body a (ACat (set_rest_time (rest_time c - 1) c)) s))
  ∧ (rest_time c = 1%Z → instance s = false →
     ∃ s', Cat_rest a draw s = Raise AssertionError s')
  ∧ (rest_time c = 1%Z → instance s = true → empty_lanes s = [] →
     Cat_rest a draw s = Ok s)
  ∧ (rest_time c = 1%Z → instance s = true → empty_lanes s ≠ [] →
     ∃ s' lane,
       Cat_rest a draw s = Ok s'
       ∧ empty_lanes s !! (draw mod length (empty_lanes s)) = Some lane
       ∧ (∃ i, i < lane_count s ∧ lane = get_lane_entrance i)
       ∧ tile_actor s !! lane = None
       ∧ cat_at a (set_attention (starting_attention c) (set_rest_time 0 c)) lane s'
       ∧ tile_actor s' = <[lane := a]> (tile_actor s)
       ∧ ∀ b, b ≠ a → heap s' !! b = heap s !! b).
Proof.
  intros Ho. pose proof (get_cat_lookup _ _ _ _ Ho) as Hg.
  assert (Hoff : tile_of a s = None) by (by rewrite (tile_of_lookup _ _ _ Ho)).
  unfold Cat_rest. rewrite Hg. cbv zeta.
  split; [|split; [|split]].
  - intros Hne. rewrite bool_decide_false; [done|]. simpl. lia.
  - intros Hone Hi. rewrite bool_decide_true by (simpl; lia).
    unfold seq_cmd, manager, py_assert. simpl. rewrite Hi. by eexists.
  - intros Hone Hi Hnone. rewrite bool_decide_true by (simpl; lia).
    erewrite seq_cmd_ok by (by apply manager_ok).
    change (empty_lanes (set_body a (ACat (set_rest_time (rest_time c - 1) c)) s))
      with (empty_lanes s).
    rewrite Hnone, set_body_twice. f_equal. apply set_body_same.
    rewrite Ho. destruct c. simpl in *. by subst.
  - intros Hone Hi Hsome. rewrite bool_decide_true by (simpl; lia).
    erewrite seq_cmd_ok by (by apply manager_ok).
    change (empty_lanes (set_body a (ACat (set_rest_time (rest_time c - 1) c)) s))
      with (empty_lanes s).
    destruct (empty_lanes s) as [|first others] eqn:Hlanes; [done|].
    set (index := draw mod length (first :: others)).
    assert (index < length (first :: others)) as Hlt
      by (apply Nat.mod_upper_bound; simpl; lia).
    destruct (lookup_lt_is_Some_2 (first :: others) index Hlt) as [lane Hlane].
    assert (nth index (first :: others) first = lane) as ->.
    { by apply nth_lookup_Some with (d := first) in Hlane. }
    assert (lane ∈ empty_lanes s) as Hin.
    { rewrite Hlanes. by eapply list_elem_of_lookup_2. }
    apply empty_lanes_elem in Hin as [Hentrance Hempty].
    rewrite set_body_twice.
    rewrite teleport_off_board.
    + exists (with_tile_actor <[lane:=a]> (set_tile a (Some lane)
               (set_body a (ACat (set_attention
                  (starting_attention (set_rest_time (rest_time c - 1) c))
                  (set_rest_time (rest_time c - 1) c))) s))), lane.
      split; [done|]. split; [done|]. split; [done|]. split; [done|].
      split; [|split; [done|]].
      * split; simpl; [|by rewrite lookup_insert_eq].
        rewrite !lookup_alter_eq, Ho. simpl. do 3 f_equal.
        destruct c. unfold set_attention, set_rest_time. simpl in *. f_equal. lia.
      * intros b Hne. simpl. by rewrite !lookup_alter_ne.
    + by rewrite tile_of_set_body.
    + done.
Qed.

(** ** The battery charger *)

Lemma BatteryCharger_round self ready t s :
  heap s !! self = Some (mkActor (AContraption (BatteryCharger ready)) t) →
  instance s = true → (0 ≤ batteries s)%Z →
  contraption_end_round self s
  = Ok (set_body self (AContraption (BatteryCharger (negb ready)))
          (if ready then with_batteries (batteries s + 1) s else s)).
Proof.
  intros Ho Hi Hb. unfold contraption_end_round.
  rewrite (get_contraption_lookup _ _ _ _ Ho).
  unfold BatteryCharger_end_round. destruct ready; [|done].
  unfold seq_cmd, manager, py_assert, update_battery_text, pure. simpl.
  rewrite Hi. simpl. rewrite Hi. simpl.
  unfold py_assert. simpl. by rewrite bool_decide_true by lia.
Qed.

(** X4. A BatteryCharger gives one battery every other round.  From any
    state of its flag, two rounds in a row add exactly 1 battery and bring
    the charger, and the whole store, back to where they were; a charger
    that has just been built ([ready = False]) gives nothing in its first
    round and 1 battery in its second. *)
Theorem BatteryCharger_two_rounds (self : nat) (ready : bool) (t : option Tile) (s : Game) :
  heap s !! self = Some (mkActor (AContraption (BatteryCharger ready)) t) →
  instance s = true → (0 ≤ batteries s)%Z →
  ∃ s1 s2,
    contraption_end_round self s = Ok s1
    ∧ contraption_end_round self s1 = Ok s2
    ∧ batteries s1 = (batteries s + (if ready then 1 else 0))%Z
    ∧ batteries s2 = (batteries s + 1)%Z
    ∧ s2 = with_batteries (batteries s + 1) s.
Proof.
  intros Ho Hi Hb.
  rewrite (BatteryCharger_round self ready t s Ho Hi Hb).
  eexists. eexists. split; [done|].
  rewrite (BatteryCharger_round self (negb ready) t).
  - split; [done|]. destruct ready; simpl.
    + split; [done|]. split; [done|]. destruct s. unfold set_body, with_heap, with_batteries.
      simpl in *. f_equal. apply map_eq. intros b.
      destruct (decide (self = b)) as [<-|Hne].
      * by rewrite !lookup_alter_eq, Ho.
      * by rewrite !lookup_alter_ne.
    + split; [lia|]. split; [done|]. destruct s. unfold set_body, with_heap, with_batteries.
      simpl in *. f_equal. apply map_eq. intros b.
      destruct (decide (self = b)) as [<-|Hne].
      * by rewrite !lookup_alter_eq, Ho.
      * by rewrite !lookup_alter_ne.
  - simpl. destruct ready; simpl; by rewrite lookup_alter_eq, Ho.
  - by destruct ready.
  - destruct ready; simpl; lia.
Qed.

(** ** Teleporting: the unchecked precondition and the round trip *)

(** X5. [Actor.teleport] checks that the target is empty only after the
    actor has left its own tile and has taken the target as its [_tile]:
    teleporting an actor that is on the board onto an occupied tile raises
    [AssertionError] and leaves the actor on no tile at all, while it
    reports the tile that the other actor still occupies. *)
Theorem teleport_onto_occupied (a b : nat) (x : ActorBody) (t0 t : Tile) (s : Game) :
  instance s = true → heap s !! a = Some (mkActor x (Some t0)) →
  tile_actor s !! t0 = Some a → t ≠ t0 → tile_actor s !! t = Some b →
  ∃ s', teleport a t s = Raise AssertionError s'
        ∧ tile_actor s' !! t0 = None
        ∧ tile_actor s' !! t = Some b
        ∧ tile_of a s' = Some t.
Proof.
  intros Hi Ho Ht0 Hne Hb. unfold teleport.
  rewrite (tile_of_lookup _ _ _ Ho). simpl.
  rewrite <- seq_cmd_assoc. erewrite seq_cmd_ok by (by eapply clear_actor_ok).
  unfold seq_cmd, pure, set_actor, py_assert, is_empty. simpl.
  rewrite bool_decide_false by (rewrite lookup_delete_ne by done; by rewrite Hb).
  eexists. split; [done|]. simpl. split_and!.
  - by rewrite lookup_delete_eq.
  - by rewrite lookup_delete_ne.
  - unfold tile_of. simpl. by rewrite lookup_alter_eq, Ho.
Qed.

(** X6. An actor that is off the board is teleported onto an empty tile and
    then removed from the board: both calls return and the game is exactly
    what it was.  Removing an actor that is off the board raises
    [AttributeError] and changes nothing. *)
Theorem teleport_remove_round_trip (a : nat) (x : ActorBody) (t : Tile) (s : Game) :
  instance s = true → heap s !! a = Some (mkActor x None) →
  tile_actor s !! t = None →
  (teleport a t >> remove_from_board a) s = Ok s
  ∧ remove_from_board a s = Raise AttributeError s.
Proof.
  intros Hi Ho Hempty. split.
  - rewrite (seq_cmd_ok _ _ _ _ (teleport_off_board a t s (tile_of_lookup _ _ _ Ho) Hempty)).
    unfold remove_from_board.
    erewrite tile_of_lookup by (simpl; by rewrite lookup_alter_eq, Ho). simpl.
    erewrite seq_cmd_ok by (eapply clear_actor_ok; [done|simpl; by rewrite lookup_insert_eq]).
    unfold pure. f_equal. destruct s. unfold set_tile, with_heap, with_tile_actor.
    simpl in *. f_equal.
    + rewrite delete_insert_eq. by apply delete_id.
    + apply map_eq. intros b. destruct (decide (a = b)) as [<-|Hne].
      * by rewrite !lookup_alter_eq, Ho.
      * by rewrite !lookup_alter_ne.
  - unfold remove_from_board. by rewrite (tile_of_lookup _ _ _ Ho).
Qed.

(** ** The colourful ball thrower *)

Lemma found_cat_false window s :
  (∀ t', t' ∈ window → no_cat_at t' s) → found_cat window s = false.
Proof.
  intros Hall. unfold found_cat.
  destruct (existsb _ window) eqn:E; [|done].
  apply existsb_exists in E as (t' & Hin%list_elem_of_In & Ht').
  specialize (Hall t' Hin). unfold no_cat_at in Hall.
  destruct (actor t' s) as [a|]; [|done]. by rewrite (Hall a eq_refl) in Ht'.
Qed.

Lemma found_cat_true before t_cat after cat s :
  actor t_cat s = Some cat → is_cat cat s = true →
  found_cat (before ++ t_cat :: after) s = true.
Proof.
  intros Ha Hc. unfold found_cat. apply existsb_exists. exists t_cat.
  split; [apply list_elem_of_In, elem_of_app; right; left|]. by rewrite Ha.
Qed.

Lemma last_empty_acc window s : ∀ acc,
  (∀ t', t' ∈ window → tile_actor s !! t' ≠ None) →
  foldl (λ acc t, if is_empty t s then Some t else acc) acc window = acc.
Proof.
  induction window as [|t0 window IH]; intros acc Hall; simpl; [done|].
  unfold is_empty at 2. rewrite bool_decide_false by (apply Hall; left).
  apply IH. intros t' Ht'. apply Hall. by right.
Qed.

Lemma last_empty_none window s :
  (∀ t', t' ∈ window → tile_actor s !! t' ≠ None) → last_empty window s = None.
Proof. apply last_empty_acc. Qed.

Lemma last_empty_furthest before target after s :
  tile_actor s !! target = None →
  (∀ t', t' ∈ after → tile_actor s !! t' ≠ None) →
  last_empty (before ++ target :: after) s = Some target.
Proof.
  intros Hempty Hafter. unfold last_empty. rewrite foldl_app. simpl.
  unfold is_empty at 2. rewrite bool_decide_true by done.
  by apply last_empty_acc.
Qed.

(** X7. A ColorfulBallThrower looks at the first three tiles of the
    entrance chain of its tile.  With a cat among them it distracts the
    nearest cat by 1 and builds no ball.  With no cat among them it builds a
    ball and puts it on the furthest of these tiles that is empty, and
    changes nothing else; with no cat and no empty tile among them it does
    nothing. *)
Theorem ColorfulBallThrower_round (self : nat) (t : Tile) (s : Game) :
  heap s !! self = Some (mkActor (AContraption ColorfulBallThrower) (Some t)) →
  instance s = true →
  (∀ before t_cat after cat,
     take 3 (entrance_chain t) = before ++ t_cat :: after →
     (∀ t', t' ∈ before → no_cat_at t' s) →
     actor t_cat s = Some cat → is_cat cat s = true →
     contraption_end_round self s = distract cat 1 s)
  ∧ (∀ before target after,
       take 3 (entrance_chain t) = before ++ target :: after →
       (∀ t', t' ∈ take 3 (entrance_chain t) → no_cat_at t' s) →
       tile_actor s !! target = None →
       (∀ t', t' ∈ after → tile_actor s !! t' ≠ None) →
       contraption_end_round self s
       = Ok (with_tile_actor <[target := next_id s]>
               (with_next_id (S (next_id s))
                  (with_heap <[next_id s := mkActor AColorfulBall (Some target)]> s))))
  ∧ ((∀ t', t' ∈ take 3 (entrance_chain t) → no_cat_at t' s) →
     (∀ t', t' ∈ take 3 (entrance_chain t) → tile_actor s !! t' ≠ None) →
     contraption_end_round self s = Ok s).
Proof.
  intros Ho Hi. unfold contraption_end_round.
  rewrite (get_contraption_lookup _ _ _ _ Ho).
  unfold ColorfulBallThrower_end_round. rewrite (tile_of_lookup _ _ _ Ho). simpl tile.
  cbv zeta. split; [|split].
  - intros before t_cat after cat Hwin Hbefore Ha Hc. rewrite Hwin.
    rewrite (found_cat_true _ _ _ _ _ Ha Hc). by apply scan_first_cat.
  - intros before target after Hwin Hnocat Hempty Hafter.
    rewrite (found_cat_false _ _ Hnocat). rewrite Hwin.
    rewrite (last_empty_furthest _ _ _ _ Hempty Hafter).
    erewrite seq_cmd_ok by (by apply new_actor_ok).
    rewrite teleport_off_board.
    + f_equal. destruct s as [? ? ? n ? ? ? ? ? ? ? ?].
      unfold set_tile, with_tile_actor, with_next_id, with_heap.
      simpl. f_equal. apply map_eq. intros b.
      destruct (decide (n = b)) as [<-|Hne].
      * by rewrite lookup_alter_eq, !lookup_insert_eq.
      * by rewrite lookup_alter_ne, !lookup_insert_ne.
    + unfold tile_of. simpl. by rewrite lookup_insert_eq.
    + done.
  - intros Hnocat Hfull. rewrite (found_cat_false _ _ Hnocat).
    by rewrite (last_empty_none _ _ Hfull).
Qed.

(** ** Dodging and knocking over *)

Lemma is_empty_set_body t a x s : is_empty t (set_body a x s) = is_empty t s.
Proof. done. Qed.

(** X8. A distraction that leaves a Calico on the board sends it to the
    tile above when that tile exists and is empty, and leaves it where it
    is when there is no lane above or the tile above is occupied; a Tabby
    or a Kitten always stays where it is.  In each case the attention drops
    by the amount. *)
Theorem Calico_dodges_up (a : nat) (c : Cat) (t : Tile) (amount : Z) (s : Game) :
  instance s = true → cat_at a c t s → (0 ≤ amount < attention c)%Z →
  ∃ s' t',
    distract a amount s = Ok s'
    ∧ cat_at a (set_attention (attention c - amount) c) t' s'
    ∧ tile_actor s' = <[t' := a]> (delete t (tile_actor s))
    ∧ t' = match cat_class c, above t with
           | Calico, Some tile_above =>
               if is_empty tile_above s then tile_above else t
           | _, _ => t
           end.
Proof.
  intros Hi Hat [Hamt Hlt]. pose proof Hat as [Ho Hocc].
  unfold distract. rewrite (get_cat_lookup _ _ _ _ Ho).
  assert (Hbase : Cat_distract a amount s
            = Ok (set_body a (ACat (set_attention (attention c - amount) c)) s)).
  { rewrite (Cat_distract_on_board a c t amount s Hi Hat Hamt).
    unfold distracted. by rewrite !bool_decide_false by lia. }
  assert (Hstay : cat_at a (set_attention (attention c - amount) c) t
                    (set_body a (ACat (set_attention (attention c - amount) c)) s)).
  { split; simpl; [by rewrite lookup_alter_eq, Ho|done]. }
  assert (Hsame : tile_actor s = <[t:=a]> (delete t (tile_actor s)))
    by (by rewrite insert_delete_id).
  destruct (cat_class c) eqn:Hclass.
  1, 3: (rewrite Hbase; eexists; exists t; split; [done|]; by split_and!).
  unfold Calico_distract. rewrite (seq_cmd_ok _ _ _ _ Hbase).
  rewrite (tile_of_lookup _ _ _ (proj1 Hstay)). simpl tile.
  destruct (above t) as [ta|] eqn:Hab.
  - rewrite ?Hab, is_empty_set_body.
    destruct (is_empty ta s) eqn:He.
    + unfold is_empty in He. apply bool_decide_eq_true in He.
      assert (ta ≠ t) as Hne by (intros ->; congruence).
      erewrite teleport_on_board;
        [|done|by rewrite (tile_of_lookup _ _ _ (proj1 Hstay))|exact Hocc|
          simpl; by rewrite lookup_delete_ne].
      eexists. exists ta. split; [done|]. split_and!; try done.
      split; simpl; [|by rewrite lookup_insert_eq].
      by rewrite !lookup_alter_eq, Ho.
    + eexists. exists t. split; [done|]. by split_and!.
  - rewrite ?Hab. eexists. exists t. split; [done|]. by split_and!.
Qed.

(** X9. The edges of [Contraption.interact].  On a contraption that is off
    the board it raises [AssertionError] and changes nothing.  On a
    contraption that stands on the board but was never registered it raises
    [ValueError] only after the contraption has been taken off its tile.  A
    SnackDispenser whose counter is not 1, so also one that has already been
    knocked over, only counts down: it never raises and never touches the
    board or the registry. *)
Theorem interact_edges (a : nat) (d : Contraption) (s : Game) :
  (∀ uses, d ≠ SnackDispenser uses) →
  (heap s !! a = Some (mkActor (AContraption d) None) →
   interact a s = Raise AssertionError s)
  ∧ (∀ t, instance s = true →
          heap s !! a = Some (mkActor (AContraption d) (Some t)) →
          tile_actor s !! t = Some a → a ∉ contraptions s →
          interact a s
          = Raise ValueError (set_tile a None (with_tile_actor (delete t) s)))
  ∧ (∀ uses o, (uses ≠ 1)%Z →
          heap s !! a = Some (mkActor (AContraption (SnackDispenser uses)) o) →
          interact a s
          = Ok (set_body a (AContraption (SnackDispenser (uses - 1))) s)).
Proof.
  intros Hd. split; [|split].
  - intros Ho. unfold interact. rewrite (get_contraption_lookup _ _ _ _ Ho).
    assert (Contraption_interact a s = Raise AssertionError s) as Hbase.
    { unfold Contraption_interact. by rewrite (tile_of_lookup _ _ _ Ho). }
    destruct d; try done. by destruct (Hd uses).
  - intros t Hi Ho Hocc Hnot. unfold interact.
    rewrite (get_contraption_lookup _ _ _ _ Ho).
    assert (Contraption_interact a s
            = Raise ValueError (set_tile a None (with_tile_actor (delete t) s))) as Hbase.
    { unfold Contraption_interact. rewrite (tile_of_lookup _ _ _ Ho). simpl tile.
      cbv beta iota. rewrite <- !seq_cmd_assoc.
      erewrite seq_cmd_ok by (by eapply clear_actor_ok).
      unfold seq_cmd at 1, pure.
      erewrite seq_cmd_ok by (by apply manager_ok).
      unfold remove_contraption. simpl.
      assert (list_remove a (contraptions s) = None) as ->; [|done].
      clear -Hnot. induction (contraptions s) as [|y l IH]; simpl; [done|].
      apply not_elem_of_cons in Hnot as [Hne Hnot].
      rewrite decide_False by done. by rewrite IH. }
    destruct d; try done. by destruct (Hd uses).
  - intros uses o Hu Ho. unfold interact.
    rewrite (get_contraption_lookup _ _ _ _ Ho).
    unfold SnackDispenser_interact, seq_cmd, pure.
    rewrite bool_decide_false by lia. done.
Qed.

(** ** The further properties at concrete games *)

Lemma Cat_rest_cases_witness :
  ∃ s' lane,
    Cat_rest 0 0 snack_selected = Ok s'
    ∧ cat_at 0 (mkCat Tabby 4 4 4 0) lane s'.
Proof.
  assert (heap snack_selected !! 0 = Some (mkActor (ACat (mkCat Tabby 4 0 4 1)) None)) as Ho
    by (vm_compute; reflexivity).
  assert (instance snack_selected = true) as Hi by (vm_compute; reflexivity).
  assert (empty_lanes snack_selected ≠ []) as Hl by (vm_compute; intros [=]).
  destruct (Cat_rest_cases 0 _ 0 snack_selected Ho) as (_ & _ & _ & Henter).
  destruct (Henter eq_refl Hi Hl) as (s' & lane & Hrun & _ & _ & _ & Hat & _).
  exists s', lane. split; assumption.
Defined.

Lemma BatteryCharger_two_rounds_witness :
  ∃ s1 s2,
    contraption_end_round 1 charger_built = Ok s1
    ∧ contraption_end_round 1 s1 = Ok s2
    ∧ batteries s1 = batteries charger_built
    ∧ batteries s2 = (batteries charger_built + 1)%Z.
Proof.
  assert (heap charger_built !! 1
          = Some (mkActor (AContraption (BatteryCharger false)) (Some (0, 3)))) as Ho
    by (vm_compute; reflexivity).
  assert (instance charger_built = true) as Hi by (vm_compute; reflexivity).
  assert (0 ≤ batteries charger_built)%Z as Hb by (by vm_compute).
  destruct (BatteryCharger_two_rounds 1 false _ charger_built Ho Hi Hb)
    as (s1 & s2 & H1 & H2 & Hb1 & Hb2 & _).
  exists s1, s2. split_and!; [assumption|assumption|lia|assumption].
Defined.

Lemma teleport_onto_occupied_witness :
  ∃ s', teleport 0 (0, 6) laser_behind_snack = Raise AssertionError s'
        ∧ tile_actor s' !! (0, 7) = None
        ∧ tile_actor s' !! (0, 6) = Some 1
        ∧ tile_of 0 s' = Some (0, 6).
Proof.
  assert (instance laser_behind_snack = true) as Hi by (vm_compute; reflexivity).
  assert (heap laser_behind_snack !! 0
          = Some (mkActor (ACat (mkCat Tabby 4 4 4 0)) (Some (0, 7)))) as Ho
    by (vm_compute; reflexivity).
  assert (tile_actor laser_behind_snack !! (0, 7) = Some 0) as Ht0
    by (vm_compute; reflexivity).
  assert (tile_actor laser_behind_snack !! (0, 6) = Some 1) as Ht
    by (vm_compute; reflexivity).
  assert ((0, 6) ≠ (0, 7)) as Hne by (intros [=]).
  exact (teleport_onto_occupied 0 1 _ (0, 7) (0, 6) laser_behind_snack Hi Ho Ht0 Hne Ht).
Defined.

Lemma teleport_remove_round_trip_witness :
  (teleport 0 (0, 7) >> remove_from_board 0) snack_selected = Ok snack_selected
  ∧ remove_from_board 0 snack_selected = Raise AttributeError snack_selected.
Proof.
  assert (instance snack_selected = true) as Hi by (vm_compute; reflexivity).
  assert (heap snack_selected !! 0 = Some (mkActor (ACat (mkCat Tabby 4 0 4 1)) None)) as Ho
    by (vm_compute; reflexivity).
  assert (tile_actor snack_selected !! (0, 7) = None) as He by (vm_compute; reflexivity).
  exact (teleport_remove_round_trip 0 _ (0, 7) snack_selected Hi Ho He).
Defined.

Lemma ColorfulBallThrower_round_witness :
  contraption_end_round 1 kitten_among_balls = distract 0 1 kitten_among_balls.
Proof.
  assert (heap kitten_among_balls !! 1
          = Some (mkActor (AContraption ColorfulBallThrower) (Some (0, 0)))) as Ho
    by (vm_compute; reflexivity).
  assert (instance kitten_among_balls = true) as Hi by (vm_compute; reflexivity).
  assert (take 3 (entrance_chain (0, 0)) = [(0, 1); (0, 2)] ++ (0, 3) :: []) as Hwin
    by (vm_compute; reflexivity).
  assert (actor (0, 3) kitten_among_balls = Some 0) as Ha by (vm_compute; reflexivity).
  assert (is_cat 0 kitten_among_balls = true) as Hc by (vm_compute; reflexivity).
  assert (actor (0, 1) kitten_among_balls = Some 4) as E1 by (vm_compute; reflexivity).
  assert (actor (0, 2) kitten_among_balls = Some 3) as E2 by (vm_compute; reflexivity).
  assert (is_cat 4 kitten_among_balls = false) as C1 by (vm_compute; reflexivity).
  assert (is_cat 3 kitten_among_balls = false) as C2 by (vm_compute; reflexivity).
  assert (∀ t', t' ∈ [(0, 1); (0, 2)] → no_cat_at t' kitten_among_balls) as Hbefore.
  { intros t' Hin b Hb.
    apply elem_of_cons in Hin as [->|Hin];
      [|apply elem_of_cons in Hin as [->|Hin]; [|apply elem_of_nil in Hin as []]].
    - rewrite E1 in Hb. injection Hb as <-. exact C1.
    - rewrite E2 in Hb. injection Hb as <-. exact C2. }
  exact (proj1 (ColorfulBallThrower_round 1 (0, 0) kitten_among_balls Ho Hi)
           [(0, 1); (0, 2)] (0, 3) [] 0 Hwin Hbefore Ha Hc).
Defined.

Lemma Calico_dodges_up_witness :
  ∃ s', distract 0 1 calico_below = Ok s'
        ∧ cat_at 0 (mkCat Calico 5 4 4 0) (0, 7) s'.
Proof.
  assert (instance calico_below = true) as Hi by (vm_compute; reflexivity).
  assert (cat_at 0 (mkCat Calico 5 5 4 0) (1, 7) calico_below) as Hat
    by (split; vm_compute; reflexivity).
  assert (0 ≤ 1 < attention (mkCat Calico 5 5 4 0))%Z as Hamt by (simpl; lia).
  destruct (Calico_dodges_up 0 _ (1, 7) 1 calico_below Hi Hat Hamt)
    as (s' & t' & Hrun & Hcat & _ & Ht').
  exists s'. split; [assumption|].
  assert (t' = (0, 7)) as <-; [|exact Hcat].
  rewrite Ht'. vm_compute. reflexivity.
Defined.

Lemma interact_edges_witness :
  interact 1 kitten_at_goal = Raise AssertionError kitten_at_goal.
Proof.
  assert (∀ uses, LaserPointer ≠ SnackDispenser uses) as Hd by (intros uses [=]).
  assert (heap kitten_at_goal !! 1 = Some (mkActor (AContraption LaserPointer) None)) as Ho
    by (vm_compute; reflexivity).
  exact (proj1 (interact_edges 1 LaserPointer kitten_at_goal Hd) Ho).
Defined.
